(** * Swiping Equations: the equation-state engine of [src/App.jsx]

    A shallow embedding of the level generator and of the React state
    machine of the component [App] (terms, score, solved count, the merge
    and division dialogs and the status-derivation effect), followed by
    the properties of the specification that concern them.

    Conventions of the embedding.
    - A JS [number] that the program only ever builds from integers by
      [+], [-], [*] and [Math.floor] is a [Z]; the difficulty scalar, the
      values of [Math.random()] and the quotient of the division step are
      rationals ([Q]), so [Math.round], [Math.floor], [/] and the
      comparisons are exact. Floating-point rounding is not modelled: on
      the small integers of the game the arithmetic of JS is exact, and
      [-0] is the same number as [0] for every operation used.
    - A text input is a string; [parseInt] is modelled on its ASCII part.
    - [Math.random()] is read from an explicit source, a stream of draws
      with a cursor, threaded through the generator by a small state monad.
    - React state is one record; every [setX] of a handler is a field
      update of that record, and the effect with dependencies
      [terms, gameWon] is the function [statusEffect] run after a handler. *)

From Stdlib Require Import ZArith QArith Qround List String Ascii Bool Lia.
Import ListNotations.

Local Open Scope Z_scope.

(** ** Types *)

Inductive Side : Type := lhs | rhs.

Definition Side_eqb (a b : Side) : bool :=
  match a, b with
  | lhs, lhs | rhs, rhs => true
  | _, _ => false
  end.

Record Term : Type := mkTerm
  { id : string;
    coefficient : Z;
    hasVariable : bool;   (* true for 'x', false for constant *)
    side : Side }.

(** The raw terms of [generateLevel], before they get an id. *)
Record RawTerm : Type := mkRaw
  { coeff : Z;
    hasVar : bool;
    rside : Side }.

(** ** The random source *)

Module Rand.

(** The source of [Math.random()]: the stream of all draws and the number
    of draws already consumed. *)
Record Src : Type := mkSrc { draws : nat -> Q; cursor : nat }.

Definition M (A : Type) : Type := Src -> A * Src.

Definition ret {A} (a : A) : M A := fun s => (a, s).

Definition bind {A B} (m : M A) (k : A -> M B) : M B :=
  fun s => let (a, s') := m s in k a s'.

(** [Math.random()] *)
Definition random : M Q :=
  fun s => (draws s (cursor s), mkSrc (draws s) (S (cursor s))).

(** A source is valid when every draw is in [[0, 1)]. *)
Definition valid (s : Src) : Prop :=
  forall n, (0 <= draws s n /\ draws s n < 1)%Q.

(** [xs.forEach(t => out.push(...f t))] with an effectful body. *)
Fixpoint flatMapM {A B} (f : A -> M (list B)) (xs : list A) : M (list B) :=
  match xs with
  | [] => ret []
  | x :: xs' =>
      bind (f x) (fun ys => bind (flatMapM f xs') (fun zs => ret (ys ++ zs)))
  end.

End Rand.

Declare Scope rand_scope.
Delimit Scope rand_scope with rand.
Notation "x <- m ;; k" := (Rand.bind m (fun x => k))
  (at level 61, m at next level, right associativity) : rand_scope.

(** ** Helper functions *)

(** [Math.floor] and [Math.round] on a rational; [Math.round] rounds a half
    towards plus infinity. *)
Definition Math_floor (q : Q) : Z := Qfloor q.
Definition Math_round (q : Q) : Z := Qfloor (q + (1 # 2)).

(** The digits of [Number.prototype.toString(36)]. *)
Definition digit36 (d : Z) : ascii :=
  if d <? 10 then ascii_of_nat (Z.to_nat (48 + d))
  else ascii_of_nat (Z.to_nat (87 + d)).

(** The base-36 digits of a fraction, at most [n] of them, stopping when the
    expansion ends. *)
Fixpoint fraction36 (n : nat) (r : Q) : string :=
  match n with
  | O => EmptyString
  | S n' =>
      if Qeq_bool r 0 then EmptyString
      else
        let d := Qfloor (r * 36) in
        String (digit36 d) (fraction36 n' (r * 36 - inject_Z d))
  end.

(** [generateId = () => Math.random().toString(36).substr(2, 9)]: the
    characters after ["0."], nine at most. *)
Definition generateId : Rand.M string :=
  (r <- Rand.random ;; Rand.ret (fraction36 9 r))%rand.

Definition options : list Z := [2; 3; 4; 5; -2; -3; -4; -5].

(** [options[i]]; the index is in range for every draw in [[0, 1)], outside
    of it the source would read [undefined], which is not modelled. *)
Definition optionsAt (i : Z) : Z := nth (Z.to_nat i) options 0.

Definition Qgtb (a b : Q) : bool := negb (Qle_bool a b).

(** The split of one raw term in step 5 of [generateLevel]. *)
Definition splitTerm (t : RawTerm) : Rand.M (list RawTerm) :=
  (r <- Rand.random ;;
   if Qgtb r (1 # 2) || (coeff t =? 0) then Rand.ret [t]
   else
     let splitPart := coeff t / 2 in
     let remainder := coeff t - splitPart in
     Rand.ret [ mkRaw splitPart (hasVar t) (rside t);
                mkRaw remainder (hasVar t) (rside t) ])%rand.

(** The conversion of one raw term to a [Term] object: zero coefficients are
    skipped, every other term gets a generated id. *)
Definition toTerm (t : RawTerm) : Rand.M (list Term) :=
  if negb (coeff t =? 0) then
    (i <- generateId ;;
     Rand.ret [ mkTerm i (coeff t) (hasVar t) (rside t) ])%rand
  else Rand.ret [].

(** The numbers [generateLevel] draws before it assembles the raw terms. *)
Record Draws : Type := mkDraws
  { finalCoeff : Z; answer : Z; coeffA : Z; constC1 : Z }.

Definition scale (difficulty : Q) (val : Z) : Z :=
  Math_round (inject_Z val * difficulty).

Definition drawNumbers (difficulty : Q) : Rand.M Draws :=
  ((* 1. Determine Final Coefficient of x (The "Division" feature) *)
   finalCoeff <-
     (if Qgtb difficulty (12 # 10) then
        r <- Rand.random ;;
        Rand.ret (optionsAt (Math_floor (r * inject_Z (Z.of_nat (List.length options)))))
      else Rand.ret 1) ;;
   (* 2. Determine Answer (x = ?) *)
   let rangeX := scale difficulty 5 in
   r <- Rand.random ;;
   let answer := Math_floor (r * inject_Z (rangeX * 2 + 1)) - rangeX in
   (* 3. Generate A and B *)
   let minA := 2 in
   let maxA := Z.max (minA + 2) (scale difficulty 6) in
   r <- Rand.random ;;
   let A := Math_floor (r * inject_Z (maxA - minA + 1)) + minA in
   (* 4. Generate C1 and C2 *)
   let rangeC := scale difficulty 10 in
   r <- Rand.random ;;
   let C1 := Math_floor (r * inject_Z (rangeC * 2 + 1)) - rangeC in
   Rand.ret (mkDraws finalCoeff answer A C1))%rand.

Definition rawTermsOf (d : Draws) : list RawTerm :=
  let A := coeffA d in
  let B := A - finalCoeff d in
  let targetConstantDiff := finalCoeff d * answer d in
  let C1 := constC1 d in
  let C2 := C1 + targetConstantDiff in
  [ mkRaw A true lhs; mkRaw B true rhs; mkRaw C1 false lhs; mkRaw C2 false rhs ].

(** [generateLevel], together with the numbers it drew (the answer among
    them), which the source keeps in local constants. *)
Definition generateLevelWith (difficulty : Q) : Rand.M (Draws * list Term) :=
  (d <- drawNumbers difficulty ;;
   let rawTerms := rawTermsOf d in
   (* 5. Term Splitting (More terms for higher difficulty) *)
   rawTerms <-
     (if Qgtb difficulty (14 # 10) then Rand.flatMapM splitTerm rawTerms
      else Rand.ret rawTerms) ;;
   (* Convert to Term objects *)
   newTerms <- Rand.flatMapM toTerm rawTerms ;;
   Rand.ret (d, newTerms))%rand.

Definition generateLevel (difficulty : Q) : Rand.M (list Term) :=
  (r <- generateLevelWith difficulty ;; Rand.ret (snd r))%rand.

(** A source that replays a finite list of draws and then repeats a value. *)
Definition replay (l : list Q) (d : Q) : Rand.Src :=
  Rand.mkSrc (fun n => nth n l d) 0.

(** ** React state *)

(** The result of [parseInt(s, 10)]: [NaN] or an integer. *)
Inductive Parsed : Type := NaN | Int (z : Z).

Definition isWhiteSpace (c : ascii) : bool :=
  let n := nat_of_ascii c in
  ((9 <=? n) && (n <=? 13))%nat || (n =? 32)%nat.

Definition digitOf (c : ascii) : option Z :=
  let n := nat_of_ascii c in
  if ((48 <=? n) && (n <=? 57))%nat then Some (Z.of_nat n - 48) else None.

Fixpoint trimStart (s : string) : string :=
  match s with
  | String c r => if isWhiteSpace c then trimStart r else s
  | EmptyString => s
  end.

(** The longest prefix of decimal digits, read as a number; [NaN] when the
    prefix is empty. *)
Fixpoint parseDigits (acc : Parsed) (s : string) : Parsed :=
  match s with
  | String c r =>
      match digitOf c with
      | Some d =>
          parseDigits (Int (match acc with Int a => 10 * a + d | NaN => d end)) r
      | None => acc
      end
  | EmptyString => acc
  end.

Definition negParsed (p : Parsed) : Parsed :=
  match p with Int z => Int (- z) | NaN => NaN end.

(** [parseInt(s, 10)] on the ASCII part of a string. *)
Definition parseInt (s : string) : Parsed :=
  match trimStart s with
  | String "-"%char r => negParsed (parseDigits NaN r)
  | String "+"%char r => parseDigits NaN r
  | t => parseDigits NaN t
  end.

Definition isNaN (p : Parsed) : bool :=
  match p with NaN => true | Int _ => false end.

(** [p === z] for a parsed input and an integer. *)
Definition strictEqZ (p : Parsed) (z : Z) : bool :=
  match p with Int u => u =? z | NaN => false end.

(** The value of a JS division of two integers: a rational, or one of
    [Infinity], [-Infinity] and [NaN] when the divisor is zero. *)
Inductive Quot : Type := Finite (q : Q) | NonFinite.

Definition jsDiv (a b : Z) : Quot :=
  if b =? 0 then NonFinite else Finite (inject_Z a / inject_Z b).

(** [p === q] for a parsed input and a quotient: [NaN] equals nothing and an
    integer is never infinite. *)
Definition strictEqQuot (p : Parsed) (q : Quot) : bool :=
  match p, q with
  | Int u, Finite v => Qeq_bool (inject_Z u) v
  | _, _ => false
  end.

Record ModalState : Type := mkModal
  { isOpen : bool;
    termA : option Term;
    termB : option Term;
    inputValue : string;
    error : option string }.

Record DivisionModal : Type := mkDivisionModal
  { dIsOpen : bool;
    divisor : Z;
    dividend : Z;       (* The constant term *)
    divisorInput : string;
    resultInput : string;
    dError : option string }.

Record State : Type := mkState
  { terms : list Term;
    gameWon : bool;
    score : Z;
    solvedCount : Z;
    modal : ModalState;
    divisionModal : DivisionModal;
    canDivide : option (Z * Z)   (* divisor, dividend *) }.

Definition closedModal : ModalState := mkModal false None None "" None.
Definition closedDivisionModal : DivisionModal :=
  mkDivisionModal false 1 0 "" "" None.

(** The setters of [useState]. *)
Definition setTerms (f : list Term -> list Term) (s : State) : State :=
  mkState (f (terms s)) (gameWon s) (score s) (solvedCount s) (modal s)
          (divisionModal s) (canDivide s).
Definition setGameWon (b : bool) (s : State) : State :=
  mkState (terms s) b (score s) (solvedCount s) (modal s)
          (divisionModal s) (canDivide s).
Definition setScore (f : Z -> Z) (s : State) : State :=
  mkState (terms s) (gameWon s) (f (score s)) (solvedCount s) (modal s)
          (divisionModal s) (canDivide s).
Definition setSolvedCount (f : Z -> Z) (s : State) : State :=
  mkState (terms s) (gameWon s) (score s) (f (solvedCount s)) (modal s)
          (divisionModal s) (canDivide s).
Definition setModal (f : ModalState -> ModalState) (s : State) : State :=
  mkState (terms s) (gameWon s) (score s) (solvedCount s) (f (modal s))
          (divisionModal s) (canDivide s).
Definition setDivisionModal (f : DivisionModal -> DivisionModal) (s : State)
  : State :=
  mkState (terms s) (gameWon s) (score s) (solvedCount s) (modal s)
          (f (divisionModal s)) (canDivide s).
Definition setCanDivide (c : option (Z * Z)) (s : State) : State :=
  mkState (terms s) (gameWon s) (score s) (solvedCount s) (modal s)
          (divisionModal s) c.

Definition initialState : State :=
  mkState [] false 0 0 closedModal closedDivisionModal None.

(** Difficulty increases by 0.2 every 3 solved equations. *)
Definition difficulty (s : State) : Q :=
  1 + inject_Z (solvedCount s / 3) * (2 # 10).

Definition onSide (sd : Side) (t : Term) : bool := Side_eqb (side t) sd.

(** ** Check Win / Division Condition

    The effect with dependencies [terms, gameWon]. *)
Definition statusEffect (s : State) : State :=
  if gameWon s then setCanDivide None s
  else if (List.length (terms s) =? 2)%nat then
    let lhsT := filter (onSide lhs) (terms s) in
    let rhsT := filter (onSide rhs) (terms s) in
    match lhsT, rhsT with
    | [t1], [t2] =>
        let picked :=
          if hasVariable t1 && negb (hasVariable t2) then Some (t1, t2)
          else if negb (hasVariable t1) && hasVariable t2 then Some (t2, t1)
          else None in
        match picked with
        | Some (varTerm, constTerm) =>
            if coefficient varTerm =? 1 then
              setCanDivide None
                (setSolvedCount (fun c => c + 1)
                   (setScore (fun x => x + 10) (setGameWon true s)))
            else
              (* Ready to divide *)
              setCanDivide (Some (coefficient varTerm, coefficient constTerm)) s
        | None => s
        end
    | _, _ => s
    end
  else setCanDivide None s.

(** The status the interface shows. *)
Inductive Status : Type :=
| playing
| divisionReady (divisor dividend : Z)
| won.

Definition status (s : State) : Status :=
  if gameWon s then won
  else match canDivide s with
       | Some (d, m) => divisionReady d m
       | None => playing
       end.

(** ** Game Logic *)

Definition closeDivisionModal (s : State) : State :=
  setDivisionModal (fun _ => closedDivisionModal) s.

Definition closeModal (s : State) : State :=
  setModal (fun _ => closedModal) s.

Definition startNewGame (s : State) : Rand.M State :=
  (newTerms <- generateLevel (difficulty s) ;;
   Rand.ret (setTerms (fun _ => newTerms)
               (setCanDivide None (setGameWon false s))))%rand.

Definition handleDivisionClick (s : State) : State :=
  match canDivide s with
  | None => s
  | Some (d, m) => setDivisionModal (fun _ => mkDivisionModal true d m "" "" None) s
  end.

(** Whether [handleDivisionSubmit] takes its first branch. *)
Definition divisionAccepted (s : State) : bool :=
  let userDivisor := parseInt (divisorInput (divisionModal s)) in
  let userResult := parseInt (resultInput (divisionModal s)) in
  let expectedResult :=
    jsDiv (dividend (divisionModal s)) (divisor (divisionModal s)) in
  strictEqZ userDivisor (divisor (divisionModal s))
  && strictEqQuot userResult expectedResult.

(** The coefficient a parsed input stands for when it is written to a term;
    it is only used on an input that passed the comparison with a number. *)
Definition valueOf (p : Parsed) : Z :=
  match p with Int z => z | NaN => 0 end.

Definition handleDivisionSubmit (s : State) : State :=
  let userDivisor := parseInt (divisorInput (divisionModal s)) in
  let userResult := parseInt (resultInput (divisionModal s)) in
  let expectedResult :=
    jsDiv (dividend (divisionModal s)) (divisor (divisionModal s)) in
  if strictEqZ userDivisor (divisor (divisionModal s))
     && strictEqQuot userResult expectedResult
  then
    (* Apply division *)
    closeDivisionModal
      (setTerms
         (map (fun t =>
                 mkTerm (id t)
                   (if hasVariable t then 1 else valueOf userResult)
                   (hasVariable t) (side t)))
         s)
  else
    let errorMsg := "Incorrect. "%string in
    let errorMsg :=
      if negb (strictEqZ userDivisor (divisor (divisionModal s)))
      then (errorMsg ++ "Check the divisor. ")%string
      else if negb (strictEqQuot userResult expectedResult)
           then (errorMsg ++ "Check the math. ")%string
           else errorMsg in
    setDivisionModal
      (fun prev =>
         mkDivisionModal (dIsOpen prev) (divisor prev) (dividend prev)
           (divisorInput prev) (resultInput prev)
           (Some (errorMsg ++ "(-2 pts)")%string))
      (setScore (fun x => x - 2) s).

(** The test of [terms.find] in [handleDragEnd]; [hit i] is the geometric
    part: the card of id [i] is in the document and more than 30% of the
    dragged card's area overlaps it. *)
Definition mergeCandidate (term : Term) (newSide : Side)
    (hit : string -> bool) (t : Term) : bool :=
  if String.eqb (id t) (id term) then false
  else if negb (Side_eqb (side t) newSide) then false
  else if negb (Bool.eqb (hasVariable t) (hasVariable term)) then false
  else hit (id t).

(** 2. Handle Side Crossing (Flip Sign) *)
Definition crossTerm (term : Term) (newSide : Side) (t : Term) : Term :=
  if String.eqb (id t) (id term)
  then mkTerm (id t) (coefficient t * -1) (hasVariable t) newSide
  else t.

(** [newSide] is the side of the centerline the card's centre was dropped on. *)
Definition handleDragEnd (term : Term) (newSide : Side)
    (hit : string -> bool) (s : State) : State :=
  if gameWon s then s
  else
    let didCross := negb (Side_eqb newSide (side term)) in
    (* 1. Check for Collision (Merge) *)
    match find (mergeCandidate term newSide hit) (terms s) with
    | Some overlappingTerm =>
        let effectiveCoefficient :=
          if didCross then -1 * coefficient term else coefficient term in
        setModal
          (fun _ =>
             mkModal true
               (Some (mkTerm (id term) effectiveCoefficient
                        (hasVariable term) newSide))
               (Some overlappingTerm) "" None)
          s
    | None =>
        if didCross then setTerms (map (crossTerm term newSide)) s else s
    end.

(** What [handleMergeSubmit] does with a submission. *)
Inductive MergeOutcome : Type :=
| mergeIgnored      (* no pending merge *)
| mergeInvalid      (* the input is not a number *)
| mergeAccepted
| mergeRejected.    (* wrong sum; the dismiss timer is started *)

Definition mergeOutcome (s : State) : MergeOutcome :=
  match termA (modal s), termB (modal s) with
  | Some a, Some b =>
      let sum := coefficient a + coefficient b in
      let userSum := parseInt (inputValue (modal s)) in
      if isNaN userSum then mergeInvalid
      else if strictEqZ userSum sum then mergeAccepted
      else mergeRejected
  | _, _ => mergeIgnored
  end.

Definition withError (e : string) (prev : ModalState) : ModalState :=
  mkModal (isOpen prev) (termA prev) (termB prev) (inputValue prev) (Some e).

Definition mergedTerms (a b newTerm : Term) (prev : list Term) : list Term :=
  let filtered :=
    filter (fun t => negb (String.eqb (id t) (id a))
                     && negb (String.eqb (id t) (id b))) prev in
  filtered ++ [newTerm].

Definition handleMergeSubmit (s : State) : Rand.M State :=
  match termA (modal s), termB (modal s) with
  | Some a, Some b =>
      let sum := coefficient a + coefficient b in
      let userSum := parseInt (inputValue (modal s)) in
      if isNaN userSum then
        Rand.ret (setModal (withError "Please enter a valid number") s)
      else if strictEqZ userSum sum then
        let isZero := sum =? 0 in
        (i <- generateId ;;
         let newTerm :=
           mkTerm i sum (if isZero then false else hasVariable a) (side b) in
         Rand.ret (closeModal (setTerms (mergedTerms a b newTerm) s)))%rand
      else
        Rand.ret (setModal (withError "Incorrect sum. -2 Points!")
                    (setScore (fun x => x - 2) s))
  | _, _ => Rand.ret s
  end.

(** The callback of the timer started by a rejected merge. *)
Definition mergeTimeout (s : State) : State :=
  setTerms (fun prev => prev) (closeModal s).

(** The [onChange] handlers of the three inputs. *)
Definition changeMergeInput (v : string) (s : State) : State :=
  setModal (fun prev => mkModal (isOpen prev) (termA prev) (termB prev) v None) s.
Definition changeDivisorInput (v : string) (s : State) : State :=
  setDivisionModal
    (fun prev => mkDivisionModal (dIsOpen prev) (divisor prev) (dividend prev)
                   v (resultInput prev) None) s.
Definition changeResultInput (v : string) (s : State) : State :=
  setDivisionModal
    (fun prev => mkDivisionModal (dIsOpen prev) (divisor prev) (dividend prev)
                   (divisorInput prev) v None) s.

(** ** The event loop *)

Inductive Event : Type :=
| DragEnd (term : Term) (newSide : Side) (hit : string -> bool)
| ChangeMergeInput (v : string)
| MergeSubmit
| MergeCancel
| MergeTimeout
| DivisionClick
| ChangeDivisorInput (v : string)
| ChangeResultInput (v : string)
| DivisionSubmit
| DivisionCancel
| NewGame.

(** The component with its environment: the React state, the random source
    and the number of dismiss timers that have not fired yet. *)
Record Machine : Type := mkMachine
  { mstate : State; rng : Rand.Src; timers : nat }.

Definition handle (e : Event) (m : Machine) : Machine :=
  let s := mstate m in
  match e with
  | DragEnd term newSide hit =>
      mkMachine (handleDragEnd term newSide hit s) (rng m) (timers m)
  | ChangeMergeInput v => mkMachine (changeMergeInput v s) (rng m) (timers m)
  | MergeSubmit =>
      let (s', r') := handleMergeSubmit s (rng m) in
      mkMachine s' r'
        (match mergeOutcome s with
         | mergeRejected => S (timers m)
         | _ => timers m
         end)
  | MergeCancel => mkMachine (closeModal s) (rng m) (timers m)
  | MergeTimeout =>
      match timers m with
      | O => m
      | S n => mkMachine (mergeTimeout s) (rng m) n
      end
  | DivisionClick => mkMachine (handleDivisionClick s) (rng m) (timers m)
  | ChangeDivisorInput v => mkMachine (changeDivisorInput v s) (rng m) (timers m)
  | ChangeResultInput v => mkMachine (changeResultInput v s) (rng m) (timers m)
  | DivisionSubmit => mkMachine (handleDivisionSubmit s) (rng m) (timers m)
  | DivisionCancel => mkMachine (closeDivisionModal s) (rng m) (timers m)
  | NewGame =>
      let (s', r') := startNewGame s (rng m) in
      mkMachine s' r' (timers m)
  end.

(** One event: the handler, then the status effect on the state it left. *)
Definition dispatch (e : Event) (m : Machine) : Machine :=
  let m' := handle e m in
  mkMachine (statusEffect (mstate m')) (rng m') (timers m').

Definition run (es : list Event) (m : Machine) : Machine :=
  fold_left (fun m e => dispatch e m) es m.

(** Initialize game: [setTerms(generateLevel(1))], then the status effect. *)
Definition mount (r : Rand.Src) : Machine :=
  let (newTerms, r') := generateLevel 1 r in
  mkMachine (statusEffect (setTerms (fun _ => newTerms) initialState)) r' 0.

(** The cards on the screen are the live terms: a drag ends on one of them. *)
Definition enabled (e : Event) (m : Machine) : Prop :=
  match e with
  | DragEnd term _ _ => In term (terms (mstate m))
  | _ => True
  end.

(** Every event of a play ends a drag on a card that is on the screen. *)
Fixpoint enabledAll (es : list Event) (m : Machine) : Prop :=
  match es with
  | [] => True
  | e :: es' => enabled e m /\ enabledAll es' (dispatch e m)
  end.

(** The states the component can be in. *)
Inductive reachable : Machine -> Prop :=
| reachable_mount (r : Rand.Src) :
    Rand.valid r -> reachable (mount r)
| reachable_step (m : Machine) (e : Event) :
    reachable m -> enabled e m -> reachable (dispatch e m).

(** ** The equation a term list stands for *)

Definition termValue (x : Z) (t : Term) : Z :=
  if hasVariable t then coefficient t * x else coefficient t.

Fixpoint sumValues (x : Z) (ts : list Term) : Z :=
  match ts with
  | [] => 0
  | t :: ts' => termValue x t + sumValues x ts'
  end.

(** The sum of one side of the equation at [x]. *)
Definition sideSum (x : Z) (sd : Side) (ts : list Term) : Z :=
  sumValues x (filter (onSide sd) ts).

(** Left-sum minus right-sum at [x]. *)
Definition residual (x : Z) (ts : list Term) : Z :=
  sideSum x lhs ts - sideSum x rhs ts.

Definition balancedAt (x : Z) (ts : list Term) : Prop :=
  sideSum x lhs ts = sideSum x rhs ts.

Definition noZero (ts : list Term) : Prop :=
  Forall (fun t => coefficient t <> 0) ts.

(** No variable term with coefficient 0. *)
Definition noZeroVar (ts : list Term) : Prop :=
  Forall (fun t => hasVariable t = true -> coefficient t <> 0) ts.

Definition noZerob (ts : list Term) : bool :=
  forallb (fun t => negb (coefficient t =? 0)) ts.

(** The same sums on raw terms. *)
Definition asTerm (t : RawTerm) : Term := mkTerm "" (coeff t) (hasVar t) (rside t).

Definition rawSideSum (x : Z) (sd : Side) (rs : list RawTerm) : Z :=
  sideSum x sd (map asTerm rs).

Definition nonZeroCount (rs : list RawTerm) : nat :=
  List.length (filter (fun t => negb (coeff t =? 0)) rs).

(** ** The second listing of the component

    [src/App.jsx] holds the component twice: the listing modelled above
    (its first 681 lines), and after it a shorter listing without the type
    annotations. The generator, the status effect and [handleDragEnd] are
    the same in both; the two submit handlers and the Divide button differ,
    and are modelled here for comparison. *)

Module Compact.

(** No guard for a pending merge that is missing (the form is only shown
    with one) and none for an input that is not a number. *)
Definition handleMergeSubmit (s : State) : Rand.M State :=
  match termA (modal s), termB (modal s) with
  | Some a, Some b =>
      let sum := coefficient a + coefficient b in
      let userSum := parseInt (inputValue (modal s)) in
      if strictEqZ userSum sum then
        (i <- generateId ;;
         let newTerm :=
           mkTerm i sum (if sum =? 0 then false else hasVariable a) (side b) in
         Rand.ret (closeModal (setTerms (mergedTerms a b newTerm) s)))%rand
      else
        Rand.ret (setModal (withError "Incorrect sum. -2 Points!")
                    (setScore (fun x => x - 2) s))
  | _, _ => Rand.ret s
  end.

(** One message for every rejected division. *)
Definition handleDivisionSubmit (s : State) : State :=
  let userDivisor := parseInt (divisorInput (divisionModal s)) in
  let userResult := parseInt (resultInput (divisionModal s)) in
  let expectedResult :=
    jsDiv (dividend (divisionModal s)) (divisor (divisionModal s)) in
  if strictEqZ userDivisor (divisor (divisionModal s))
     && strictEqQuot userResult expectedResult
  then
    closeDivisionModal
      (setTerms
         (map (fun t =>
                 mkTerm (id t)
                   (if hasVariable t then 1 else valueOf userResult)
                   (hasVariable t) (side t)))
         s)
  else
    setDivisionModal
      (fun prev =>
         mkDivisionModal (dIsOpen prev) (divisor prev) (dividend prev)
           (divisorInput prev) (resultInput prev)
           (Some "Incorrect. (-2 pts)"%string))
      (setScore (fun x => x - 2) s).

(** The Divide button keeps what the inputs of the dialog held. *)
Definition handleDivisionClick (s : State) : State :=
  match canDivide s with
  | None => s
  | Some (d, m) =>
      setDivisionModal
        (fun prev =>
           mkDivisionModal true d m (divisorInput prev) (resultInput prev)
             (dError prev))
        s
  end.

End Compact.

(** ** The pieces of the handlers that the statements name *)

(** [generateLevelWith] up to the end of its splitting stage. *)
Definition splitStage (dif : Q) (r : Rand.Src) : list RawTerm * Rand.Src :=
  let (d, r0) := drawNumbers dif r in
  if Qgtb dif (14 # 10) then Rand.flatMapM splitTerm (rawTermsOf d) r0
  else (rawTermsOf d, r0).

(** The coefficient shown for the dragged term in the merge dialog. *)
Definition effectiveCoefficient (term : Term) (newSide : Side) : Z :=
  if Side_eqb newSide (side term) then coefficient term
  else - coefficient term.

(** The filter of an accepted merge. *)
Definition keepOthers (a b : Term) (t : Term) : bool :=
  negb (String.eqb (id t) (id a)) && negb (String.eqb (id t) (id b)).

(** The new term of an accepted merge. *)
Definition mergeResult (a b : Term) (i : string) : Term :=
  let sum := coefficient a + coefficient b in
  mkTerm i sum (if sum =? 0 then false else hasVariable a) (side b).

(** The flow of one division: the Divide button, the two inputs, Solve. *)
Definition divisionPending (v1 v2 : string) (s0 : State) : State :=
  changeResultInput v2 (changeDivisorInput v1 (handleDivisionClick s0)).

(** The rewrite of one term by an accepted division. *)
Definition divided (result : Z) (t : Term) : Term :=
  mkTerm (id t) (if hasVariable t then 1 else result) (hasVariable t) (side t).

(** The message of a rejected division. *)
Definition divisionError (s : State) : string :=
  if strictEqZ (parseInt (divisorInput (divisionModal s)))
       (divisor (divisionModal s))
  then "Incorrect. Check the math. (-2 pts)"
  else "Incorrect. Check the divisor. (-2 pts)".

(** The four updates of the effect when the game is won. *)
Definition winUpdate (s : State) : State :=
  setCanDivide None
    (setSolvedCount (fun c => c + 1)
       (setScore (fun x => x + 10) (setGameWon true s))).

(** What one term adds to left-sum minus right-sum. *)
Definition contribution (x : Z) (t : Term) : Z :=
  match side t with
  | lhs => termValue x t
  | rhs => - termValue x t
  end.

(** ** The status of the specification *)

(** The status as the specification words it: with exactly two terms, one
    on each side, one a variable term and the other a constant, [won] when
    the variable coefficient is 1 and [divisionReady] with the two
    coefficients otherwise; [playing] in every other case. *)
Definition specStatus (ts : list Term) : Status :=
  match ts with
  | [t; u] =>
      let pick (v c : Term) :=
        if coefficient v =? 1 then won
        else divisionReady (coefficient v) (coefficient c) in
      if Side_eqb (side t) (side u) then playing
      else if hasVariable t && negb (hasVariable u) then pick t u
      else if negb (hasVariable t) && hasVariable u then pick u t
      else playing
  | _ => playing
  end.

(** ** Example levels and plays *)

Definition inUnitb (q : Q) : bool := Qle_bool 0 q && negb (Qle_bool 1 q).

Definition noHit : string -> bool := fun _ => false.
Definition hitOn (i : string) : string -> bool := fun j => String.eqb i j.

(** A source on which the generator returns a single term: the draws pick
    [finalCoeff = 2], [answer = 0], [A = 2] and [C1 = 0] at difficulty 1.4,
    the difficulty after six solved equations. *)
Definition singleTermSrc : Rand.Src := replay [0; 1 # 2; 0; 1 # 2; 1 # 3]%Q 0.

(** The level [3x + 5 = 2x + 9], answer 4, as the first level of a game. *)
Definition exampleSrc : Rand.Src :=
  replay [5 # 6; 1 # 4; 3 # 4; 1 # 2; 1 # 3; 1 # 4; 1 # 5; 1 # 6; 1 # 9]%Q 0.

Definition exampleMachine : Machine := mount exampleSrc.

Definition exampleState : State :=
  mkState [ mkTerm "i" 3 true lhs; mkTerm "c" 2 true rhs;
            mkTerm "9" 5 false lhs; mkTerm "777777777" 9 false rhs ]
          false 0 0 closedModal closedDivisionModal None.

Definition threeX : Term := mkTerm "i" 3 true lhs.
Definition nineTerm : Term := mkTerm "777777777" 9 false rhs.
Definition fiveTerm : Term := mkTerm "9" 5 false lhs.
Definition minusFour : Term := mkTerm "4" (-4) false lhs.

(** The example level after the 9 was dropped on the 5 and [v] was typed. *)
Definition mergePending (v : string) : State :=
  changeMergeInput v (handleDragEnd nineTerm lhs (hitOn "9") exampleState).

Definition mergePendingMachine (v : string) : Machine :=
  run [DragEnd nineTerm lhs (hitOn "9"); ChangeMergeInput v] exampleMachine.

(** The example level after both pairs were merged on the far side:
    [-4 = -x], ready to divide by [-1]. *)
Definition divisionReadyState : State :=
  mkState [ mkTerm "6" (-1) true rhs; mkTerm "4" (-4) false lhs ]
          false 0 0 closedModal closedDivisionModal (Some (-1, -4)).

(** A play of the example level. The player merges [3x] into [2x] on the
    right and [9] into [5] on the left, which gives [-4 = -x]; *)
Definition mergeBothTrace : list Event :=
  [ DragEnd threeX rhs (hitOn "c"); ChangeMergeInput "-1"; MergeSubmit;
    DragEnd nineTerm lhs (hitOn "9"); ChangeMergeInput "-4"; MergeSubmit ].

(** then drags the [-4] across, which gives [0 = -x + 4]; *)
Definition staleTrace : list Event :=
  mergeBothTrace ++ [ DragEnd minusFour rhs noHit ].

(** then presses the Divide button, which is still shown, types -1 and 4 *)
Definition divisionTyped : list Event :=
  [ DivisionClick; ChangeDivisorInput "-1"; ChangeResultInput "4" ].

(** and submits; *)
Definition wrongDivisionTrace : list Event :=
  staleTrace ++ divisionTyped ++ [ DivisionSubmit ].

(** and at last drags the constant back. *)
Definition wrongWinTrace : list Event :=
  wrongDivisionTrace ++ [ DragEnd (mkTerm "4" 4 false rhs) lhs noHit ].

(** The same play with the Divide button pressed before the drag. *)
Definition clickFirstTrace : list Event :=
  mergeBothTrace
  ++ [ DivisionClick; DragEnd minusFour rhs noHit;
       ChangeDivisorInput "-1"; ChangeResultInput "4" ].

(** The level [3x + 5 = 2x + 5], answer 0, and the merge of its constants. *)
Definition zeroSrc : Rand.Src :=
  replay [1 # 2; 1 # 4; 3 # 4; 1 # 2; 1 # 3; 1 # 4; 1 # 5; 1 # 6]%Q 0.

Definition zeroTrace : list Event :=
  [ DragEnd (mkTerm "777777777" 5 false rhs) lhs (hitOn "9");
    ChangeMergeInput "0"; MergeSubmit ].

(** ** The equation display *)

Definition digitChar (d : Z) : ascii := ascii_of_nat (48 + Z.to_nat d).

(** The decimal digits of a non-negative integer, written in front of
    [rest]; [fuel] bounds the number of digits. *)
Fixpoint decimalDigits (fuel : nat) (n : Z) (rest : string) : string :=
  match fuel with
  | O => rest
  | S f =>
      let rest' := String (digitChar (n mod 10)) rest in
      if n <? 10 then rest' else decimalDigits f (n / 10) rest'
  end.

(** [n.toString()] for a non-negative integer. *)
Definition Number_toString (n : Z) : string :=
  decimalDigits (S (Z.to_nat (Z.log2 n))) n "".

Definition formatTerm (coefficient : Z) (hasVariable : bool) (showSign : bool)
  : string :=
  let absCoeff := Z.abs coefficient in
  let sign := if 0 <=? coefficient then "+"%string else "-"%string in
  let variablePart := if hasVariable then "x"%string else ""%string in
  let coeffPart := Number_toString absCoeff in
  let coeffPart :=
    if hasVariable && (absCoeff =? 1) then ""%string else coeffPart in
  if (coefficient =? 0) && negb hasVariable then "0"%string
  else if (coefficient =? 0) && hasVariable then "0"%string
  else
    let prefix :=
      if showSign then sign
      else if coefficient <? 0 then "-"%string else ""%string in
    (prefix ++ coeffPart ++ variablePart)%string.

(** [l.sort(cmp)]: the sort of an array is stable, and with a consistent
    comparator its result is that of this insertion sort. *)
Fixpoint insertSorted {A} (cmp : A -> A -> Z) (x : A) (l : list A) : list A :=
  match l with
  | [] => [x]
  | y :: l' => if cmp y x >? 0 then x :: l else y :: insertSorted cmp x l'
  end.

Definition Array_sort {A} (cmp : A -> A -> Z) (l : list A) : list A :=
  fold_left (fun acc x => insertSorted cmp x acc) l [].

(** [(a, b) => (b.hasVariable ? 1 : 0) - (a.hasVariable ? 1 : 0)] *)
Definition variablesFirst (a b : Term) : Z :=
  (if hasVariable b then 1 else 0) - (if hasVariable a then 1 else 0).

Definition startsWith (s : string) (c : ascii) : bool :=
  match s with
  | String d _ => Ascii.eqb d c
  | EmptyString => false
  end.

(** [str.substring(1)] *)
Definition substring1 (s : string) : string :=
  match s with
  | String _ r => r
  | EmptyString => EmptyString
  end.

(** The callback of [sideTerms.map] in [formatSide]; [first] is [i = 0]. *)
Definition formatPiece (first : bool) (t : Term) : string :=
  let str := formatTerm (coefficient t) (hasVariable t) (negb first) in
  if first then str
  else
    let signed :=
      if startsWith str "-" then ("- " ++ substring1 str)%string
      else ("+ " ++ substring1 str)%string in
    (" " ++ signed)%string.

Fixpoint formatRest (sideTerms : list Term) : string :=
  match sideTerms with
  | [] => ""%string
  | t :: l => (formatPiece false t ++ formatRest l)%string
  end.

Definition formatSide (sideTerms : list Term) : string :=
  match sideTerms with
  | [] => "0"%string
  | t :: l => (formatPiece true t ++ formatRest l)%string
  end.

Definition getEquationString (ts : list Term) : string :=
  let lhsT := Array_sort variablesFirst (filter (onSide lhs) ts) in
  let rhsT := Array_sort variablesFirst (filter (onSide rhs) ts) in
  (formatSide lhsT ++ " = " ++ formatSide rhsT)%string.

(** ** Sums by kind and side *)

Definition inGroup (hv : bool) (sd : Side) (t : Term) : bool :=
  Bool.eqb (hasVariable t) hv && Side_eqb (side t) sd.

(** The sum of the coefficients of the terms of one kind on one side. *)
Definition groupSum (hv : bool) (sd : Side) (ts : list Term) : Z :=
  fold_right (fun t acc => coefficient t + acc) 0 (filter (inGroup hv sd) ts).

Definition rawGroupSum (hv : bool) (sd : Side) (rs : list RawTerm) : Z :=
  groupSum hv sd (map asTerm rs).

(** One rejected attempt followed by a corrected one, for each dialog. *)
Definition retryDivision (w1 w2 v1 v2 : string) (s0 : State) : State :=
  handleDivisionSubmit
    (changeResultInput v2
       (changeDivisorInput v1
          (handleDivisionSubmit (divisionPending w1 w2 s0)))).

Definition retryMerge (w v : string) (s : State) : Rand.M State :=
  (s1 <- handleMergeSubmit (changeMergeInput w s) ;;
   handleMergeSubmit (changeMergeInput v s1))%rand.

(** What the division step needs of a reachable state. *)
Definition divisionSafe (s : State) : Prop :=
  (gameWon s = true -> canDivide s = None)
  /\ (forall k q, canDivide s = Some (k, q) -> k <> 0 /\ k <> 1)
  /\ divisor (divisionModal s) <> 0.



(** What a term shows after its sign. *)
Definition magnitude (t : Term) : string :=
  let digits :=
    if hasVariable t && (Z.abs (coefficient t) =? 1) then ""%string
    else Number_toString (Z.abs (coefficient t)) in
  (digits ++ (if hasVariable t then "x" else ""))%string.

Definition isConstant (t : Term) : bool := negb (hasVariable t).

(** The value the win dialog shows:
    [terms.find(t => !t.hasVariable)?.coefficient]. *)
Definition shownAnswer (ts : list Term) : option Z :=
  option_map coefficient (find isConstant ts).

Definition isNewGame (e : Event) : bool :=
  match e with NewGame => true | _ => false end.

(** The level of [singleTermSrc]: a new game after six solved equations. *)
Definition singleTermMachine : Machine :=
  dispatch NewGame
    (mkMachine
       (setScore (fun _ => 60) (setSolvedCount (fun _ => 6) initialState))
       singleTermSrc 0).

(** A play on it: the card is dragged across, then the closed division
    form is filled in and submitted, then the merge form is submitted. *)
Definition singleTermPlay : list Event :=
  [ DragEnd (mkTerm "c" 2 true lhs) rhs noHit;
    DivisionClick; ChangeDivisorInput "1"; ChangeResultInput "0";
    DivisionSubmit; MergeSubmit ].

(** The state [4 = x] before the status effect has run. *)
Definition solvedShape : State :=
  mkState [mkTerm "a" 4 false lhs; mkTerm "b" 1 true rhs]
    false 0 0 closedModal closedDivisionModal None.

(** * Properties *)

Lemma Side_eqb_eq (a b : Side) : Side_eqb a b = true <-> a = b.
Proof. destruct a, b; simpl; split; congruence. Qed.

Lemma Side_eqb_refl (a : Side) : Side_eqb a a = true.
Proof. destruct a; reflexivity. Qed.

Example generateLevel_ex :
  fst (generateLevel 1 (replay [1 # 2; 1 # 4; 3 # 4; 1 # 2; 1 # 3; 1 # 4; 1 # 5] 0))
  = [ mkTerm "i" 3 true lhs; mkTerm "c" 2 true rhs;
      mkTerm "9" 5 false lhs; mkTerm "777777777" 5 false rhs ].
Proof. vm_compute. reflexivity. Qed.

(** [parseInt] reads the longest numeric prefix: a fraction or an exponent
    is cut off, and a text without a leading digit is not a number. *)
Example parseInt_examples :
  parseInt "-4" = Int (-4) /\ parseInt " 12" = Int 12
  /\ parseInt "5.9" = Int 5 /\ parseInt "1e1" = Int 1
  /\ parseInt "" = NaN /\ parseInt "abc" = NaN /\ parseInt "-" = NaN.
Proof. repeat split. Qed.

(** ** The sums *)

Lemma sideSum_app (x : Z) (sd : Side) (a b : list Term) :
  sideSum x sd (a ++ b) = sideSum x sd a + sideSum x sd b.
Proof.
  unfold sideSum. rewrite filter_app.
  induction (filter (onSide sd) a) as [|t l IH]; simpl; [reflexivity | lia].
Qed.

Lemma sideSum_cons (x : Z) (sd : Side) (t : Term) (l : list Term) :
  sideSum x sd (t :: l)
  = (if onSide sd t then termValue x t else 0) + sideSum x sd l.
Proof. unfold sideSum. simpl. destruct (onSide sd t); reflexivity. Qed.

Lemma sideSum_nil (x : Z) (sd : Side) : sideSum x sd [] = 0.
Proof. reflexivity. Qed.

Lemma noZero_app (a b : list Term) : noZero (a ++ b) <-> noZero a /\ noZero b.
Proof. apply Forall_app. Qed.

Lemma noZerob_spec (ts : list Term) : noZerob ts = true <-> noZero ts.
Proof.
  unfold noZerob, noZero. rewrite forallb_forall, Forall_forall.
  split; intros H t Ht; specialize (H t Ht).
  - apply negb_true_iff, Z.eqb_neq in H. exact H.
  - apply negb_true_iff, Z.eqb_neq. exact H.
Qed.

(** ** The level generator *)

Lemma toTerm_fst (t : RawTerm) (r : Rand.Src) :
  fst (toTerm t r)
  = if negb (coeff t =? 0)
    then [mkTerm (fst (generateId r)) (coeff t) (hasVar t) (rside t)]
    else [].
Proof.
  unfold toTerm, Rand.bind, Rand.ret.
  destruct (negb (coeff t =? 0)); [|reflexivity].
  destruct (generateId r); reflexivity.
Qed.

Section Generator.

Variable x : Z.
Variable sd : Side.

Lemma toTerm_sum (t : RawTerm) (r : Rand.Src) :
  sideSum x sd (fst (toTerm t r)) = rawSideSum x sd [t].
Proof.
  rewrite toTerm_fst. unfold rawSideSum, sideSum, onSide.
  destruct (coeff t =? 0) eqn:E; cbn [negb map filter asTerm side].
  - apply Z.eqb_eq in E.
    destruct (Side_eqb (rside t) sd); [|reflexivity].
    unfold sumValues, termValue, asTerm; cbn [coefficient hasVariable].
    rewrite E. destruct (hasVar t); reflexivity.
  - destruct (Side_eqb (rside t) sd); reflexivity.
Qed.

Lemma splitTerm_sum (t : RawTerm) (r : Rand.Src) :
  rawSideSum x sd (fst (splitTerm t r)) = rawSideSum x sd [t].
Proof.
  unfold splitTerm, Rand.bind, Rand.random.
  destruct (Qgtb _ _ || _); [reflexivity|].
  destruct t as [c hv s0].
  unfold rawSideSum, sideSum, onSide, asTerm, Rand.ret.
  cbn [fst map filter side coeff hasVar rside].
  destruct (Side_eqb s0 sd); [|reflexivity].
  unfold sumValues, termValue; cbn [coefficient hasVariable].
  destruct hv; ring.
Qed.

Lemma rawSideSum_app (a b : list RawTerm) :
  rawSideSum x sd (a ++ b) = rawSideSum x sd a + rawSideSum x sd b.
Proof. unfold rawSideSum. rewrite map_app. apply sideSum_app. Qed.

Lemma rawSideSum_cons (t : RawTerm) (l : list RawTerm) :
  rawSideSum x sd (t :: l) = rawSideSum x sd [t] + rawSideSum x sd l.
Proof. apply (rawSideSum_app [t] l). Qed.

Lemma flatMapM_toTerm_sum (rs : list RawTerm) (r : Rand.Src) :
  sideSum x sd (fst (Rand.flatMapM toTerm rs r)) = rawSideSum x sd rs.
Proof.
  revert r. induction rs as [|t rs IH]; intro r; [reflexivity|].
  simpl. unfold Rand.bind at 1.
  pose proof (toTerm_sum t r) as Ht.
  destruct (toTerm t r) as [ys r1]. unfold Rand.bind.
  specialize (IH r1). destruct (Rand.flatMapM toTerm rs r1) as [zs r2].
  simpl in *. rewrite sideSum_app, Ht, IH. symmetry. apply rawSideSum_cons.
Qed.

Lemma flatMapM_splitTerm_sum (rs : list RawTerm) (r : Rand.Src) :
  rawSideSum x sd (fst (Rand.flatMapM splitTerm rs r)) = rawSideSum x sd rs.
Proof.
  revert r. induction rs as [|t rs IH]; intro r; [reflexivity|].
  simpl. unfold Rand.bind at 1.
  pose proof (splitTerm_sum t r) as Ht.
  destruct (splitTerm t r) as [ys r1]. unfold Rand.bind.
  specialize (IH r1). destruct (Rand.flatMapM splitTerm rs r1) as [zs r2].
  simpl in *. rewrite rawSideSum_app, Ht, IH. symmetry. apply rawSideSum_cons.
Qed.

End Generator.

Lemma generateLevelWith_stages (dif : Q) (r : Rand.Src) :
  fst (generateLevelWith dif r)
  = (fst (drawNumbers dif r),
     fst (Rand.flatMapM toTerm (fst (splitStage dif r)) (snd (splitStage dif r)))).
Proof.
  unfold generateLevelWith, splitStage, Rand.bind.
  destruct (drawNumbers dif r) as [d r0]. cbn [fst].
  destruct (Qgtb dif (14 # 10)).
  - destruct (Rand.flatMapM splitTerm (rawTermsOf d) r0) as [rs r1].
    cbn [fst snd]. destruct (Rand.flatMapM toTerm rs r1) as [ts r3]. reflexivity.
  - unfold Rand.ret. cbn [fst snd].
    destruct (Rand.flatMapM toTerm (rawTermsOf d) r0) as [ts r3]. reflexivity.
Qed.

Lemma splitStage_fst (dif : Q) (r : Rand.Src) :
  fst (splitStage dif r)
  = if Qgtb dif (14 # 10)
    then fst (Rand.flatMapM splitTerm (rawTermsOf (fst (drawNumbers dif r)))
                (snd (drawNumbers dif r)))
    else rawTermsOf (fst (drawNumbers dif r)).
Proof.
  unfold splitStage. destruct (drawNumbers dif r) as [d r0].
  destruct (Qgtb dif (14 # 10)); reflexivity.
Qed.

Lemma generateLevel_fst (dif : Q) (r : Rand.Src) :
  fst (generateLevel dif r) = snd (fst (generateLevelWith dif r)).
Proof.
  unfold generateLevel, Rand.bind, Rand.ret.
  destruct (generateLevelWith dif r) as [[d ts] r']. reflexivity.
Qed.

Lemma rawTermsOf_balanced (d : Draws) :
  rawSideSum (answer d) lhs (rawTermsOf d) = rawSideSum (answer d) rhs (rawTermsOf d).
Proof.
  unfold rawTermsOf, rawSideSum, sideSum, asTerm, onSide. cbn. ring.
Qed.

(** C6. For every difficulty and every outcome of the random draws, the
    terms returned by the level generator are balanced at the answer drawn:
    the left-side sum at [x = answer] equals the right-side sum, so the
    left sum minus the right sum is 0, after splitting and after the
    zero terms are dropped. *)
Theorem generateLevel_balanced (dif : Q) (r : Rand.Src) :
  let d := fst (fst (generateLevelWith dif r)) in
  let ts := fst (generateLevel dif r) in
  balancedAt (answer d) ts /\ residual (answer d) ts = 0.
Proof.
  intros d ts.
  assert (H : balancedAt (answer d) ts).
  { unfold balancedAt, ts, d. rewrite generateLevel_fst.
    rewrite generateLevelWith_stages. cbn [fst snd].
    rewrite !flatMapM_toTerm_sum, splitStage_fst.
    destruct (Qgtb dif (14 # 10)).
    - rewrite !flatMapM_splitTerm_sum. apply rawTermsOf_balanced.
    - apply rawTermsOf_balanced. }
  split; [exact H|]. unfold residual. rewrite H. lia.
Qed.

(** *** How many terms survive *)

Lemma flatMapM_cons_fst {A B} (f : A -> Rand.M (list B)) (a : A) (l : list A)
    (r : Rand.Src) :
  fst (Rand.flatMapM f (a :: l) r)
  = fst (f a r) ++ fst (Rand.flatMapM f l (snd (f a r))).
Proof.
  simpl. unfold Rand.bind, Rand.ret.
  destruct (f a r) as [ys r1]. cbn [fst snd].
  destruct (Rand.flatMapM f l r1) as [zs r2]. reflexivity.
Qed.

Lemma nonZeroCount_app (a b : list RawTerm) :
  nonZeroCount (a ++ b) = (nonZeroCount a + nonZeroCount b)%nat.
Proof. unfold nonZeroCount. rewrite filter_app. apply length_app. Qed.

Lemma flatMapM_toTerm_length (rs : list RawTerm) (r : Rand.Src) :
  List.length (fst (Rand.flatMapM toTerm rs r)) = nonZeroCount rs.
Proof.
  revert r. induction rs as [|t rs IH]; intro r; [reflexivity|].
  rewrite flatMapM_cons_fst, length_app, IH, toTerm_fst.
  change (t :: rs) with ([t] ++ rs). rewrite nonZeroCount_app.
  unfold nonZeroCount at 2. cbn [filter].
  destruct (negb (coeff t =? 0)); reflexivity.
Qed.

Lemma flatMapM_toTerm_noZero (rs : list RawTerm) (r : Rand.Src) :
  noZero (fst (Rand.flatMapM toTerm rs r)).
Proof.
  revert r. induction rs as [|t rs IH]; intro r; [constructor|].
  rewrite flatMapM_cons_fst. apply noZero_app. split; [|apply IH].
  rewrite toTerm_fst. destruct (coeff t =? 0) eqn:E; cbn [negb].
  - constructor.
  - constructor; [|constructor]. apply Z.eqb_neq in E. exact E.
Qed.

(** A split never loses a term: one of the two halves of a non-zero
    coefficient is not zero. *)
Lemma splitTerm_nonZeroCount (t : RawTerm) (r : Rand.Src) :
  (nonZeroCount [t] <= nonZeroCount (fst (splitTerm t r)))%nat.
Proof.
  unfold splitTerm, Rand.bind, Rand.random, Rand.ret.
  destruct (Qgtb _ _); cbn [orb fst]; [apply Nat.le_refl|].
  destruct (coeff t =? 0) eqn:E; [apply Nat.le_refl|].
  unfold nonZeroCount. cbn [fst filter coeff]. rewrite E.
  cbn [negb List.length]. apply Z.eqb_neq in E.
  destruct (coeff t / 2 =? 0) eqn:E1; cbn [negb].
  - apply Z.eqb_eq in E1.
    assert (H : coeff t - coeff t / 2 <> 0) by lia.
    rewrite (proj2 (Z.eqb_neq _ _) H). apply Nat.le_refl.
  - destruct (coeff t - coeff t / 2 =? 0); cbn [negb List.length]; lia.
Qed.

Lemma flatMapM_splitTerm_nonZeroCount (rs : list RawTerm) (r : Rand.Src) :
  (nonZeroCount rs <= nonZeroCount (fst (Rand.flatMapM splitTerm rs r)))%nat.
Proof.
  revert r. induction rs as [|t rs IH]; intro r; [apply Nat.le_refl|].
  rewrite flatMapM_cons_fst, nonZeroCount_app.
  change (t :: rs) with ([t] ++ rs). rewrite nonZeroCount_app.
  apply Nat.add_le_mono; [apply splitTerm_nonZeroCount | apply IH].
Qed.

Lemma generateLevel_length (dif : Q) (r : Rand.Src) :
  (nonZeroCount (rawTermsOf (fst (drawNumbers dif r)))
   <= List.length (fst (generateLevel dif r)))%nat.
Proof.
  rewrite generateLevel_fst, generateLevelWith_stages. cbn [fst snd].
  rewrite flatMapM_toTerm_length, splitStage_fst.
  destruct (Qgtb dif (14 # 10)); [|apply Nat.le_refl].
  apply flatMapM_splitTerm_nonZeroCount.
Qed.

Lemma generateLevel_noZero (dif : Q) (r : Rand.Src) :
  noZero (fst (generateLevel dif r)).
Proof.
  rewrite generateLevel_fst, generateLevelWith_stages. cbn [fst snd].
  apply flatMapM_toTerm_noZero.
Qed.

(** *** The numbers drawn *)

Lemma floor_draw_nonneg (q : Q) (n : Z) :
  (0 <= q)%Q -> 0 <= n -> 0 <= Math_floor (q * inject_Z n).
Proof.
  intros Hq Hn. unfold Math_floor.
  change 0 with (Qfloor 0). apply Qfloor_resp_le.
  apply Qmult_le_0_compat; [exact Hq|].
  change 0%Q with (inject_Z 0). rewrite <- Zle_Qle. exact Hn.
Qed.

Lemma drawNumbers_coeffA (dif : Q) (r : Rand.Src) :
  Rand.valid r -> 2 <= coeffA (fst (drawNumbers dif r)).
Proof.
  intro Hv. unfold drawNumbers, Rand.bind, Rand.random, Rand.ret.
  destruct (Qgtb dif (12 # 10)); cbn [fst coeffA Rand.draws Rand.cursor].
  - pose proof (floor_draw_nonneg (Rand.draws r (S (S (Rand.cursor r))))
                  (Z.max (2 + 2) (scale dif 6) - 2 + 1)
                  (proj1 (Hv _)) ltac:(lia)).
    lia.
  - pose proof (floor_draw_nonneg (Rand.draws r (S (Rand.cursor r)))
                  (Z.max (2 + 2) (scale dif 6) - 2 + 1)
                  (proj1 (Hv _)) ltac:(lia)).
    lia.
Qed.

Lemma drawNumbers_finalCoeff_easy (dif : Q) (r : Rand.Src) :
  Qgtb dif (12 # 10) = false -> finalCoeff (fst (drawNumbers dif r)) = 1.
Proof.
  intro H. unfold drawNumbers, Rand.bind, Rand.random, Rand.ret.
  rewrite H. reflexivity.
Qed.

Lemma inUnitb_spec (q : Q) : inUnitb q = true -> (0 <= q /\ q < 1)%Q.
Proof.
  unfold inUnitb. intro H. apply andb_true_iff in H. destruct H as [H0 H1].
  split; [apply Qle_bool_iff; exact H0|].
  apply Qnot_le_lt. intro Hc. apply Qle_bool_iff in Hc.
  rewrite Hc in H1. discriminate.
Qed.

Lemma replay_valid (l : list Q) (d : Q) :
  forallb inUnitb l = true -> inUnitb d = true -> Rand.valid (replay l d).
Proof.
  intros Hl Hd n. unfold replay. cbn [Rand.draws].
  revert n. induction l as [|q l IH]; intro n.
  - destruct n; apply inUnitb_spec; exact Hd.
  - cbn [forallb] in Hl. apply andb_true_iff in Hl. destruct Hl as [Hq Hl].
    destruct n; [apply inUnitb_spec; exact Hq | apply IH; exact Hl].
Qed.

Lemma nonZeroCount_rawTermsOf (d : Draws) :
  2 <= coeffA d ->
  nonZeroCount (rawTermsOf d)
  = (1 + (if (coeffA d - finalCoeff d =? 0)%Z then 0 else 1)
       + (if (constC1 d =? 0)%Z then 0 else 1)
       + (if (constC1 d + finalCoeff d * answer d =? 0)%Z then 0 else 1))%nat.
Proof.
  intro HA. unfold nonZeroCount, rawTermsOf. cbn [filter coeff].
  assert (E : (coeffA d =? 0) = false) by (apply Z.eqb_neq; lia).
  rewrite E. cbn [negb].
  destruct (coeffA d - finalCoeff d =? 0), (constC1 d =? 0),
    (constC1 d + finalCoeff d * answer d =? 0); reflexivity.
Qed.

Example difficulty_after_six :
  (difficulty (setSolvedCount (fun _ => 6%Z) initialState) == 14 # 10)%Q.
Proof. reflexivity. Qed.

(** C7, as stated, fails: at difficulty 1.4 the draws of [singleTermSrc] are
    all in [[0, 1)] and the generator returns the one term [2x] on the left
    (the equation [2x = 0], whose three other raw terms are zero). *)
Lemma generateLevel_single_term :
  Rand.valid singleTermSrc
  /\ fst (generateLevel (14 # 10) singleTermSrc) = [mkTerm "c" 2 true lhs]
  /\ ~ (2 <= List.length (fst (generateLevel (14 # 10) singleTermSrc)))%nat.
Proof.
  split; [apply replay_valid; reflexivity|].
  split; [vm_compute; reflexivity|].
  vm_compute. intro H. inversion H as [|? H1]. inversion H1.
Qed.

(** C7, amended. For every difficulty and every outcome of the random draws
    (each in [[0, 1)]) the generator returns at least one term; it returns at
    least two terms whenever the difficulty is at most 1.2; and it returns
    fewer than two only when the three raw coefficients [B = A - finalCoeff],
    [C1] and [C2 = C1 + finalCoeff * answer] are all zero. *)
Theorem generateLevel_term_count (dif : Q) (r : Rand.Src) :
  Rand.valid r ->
  let d := fst (drawNumbers dif r) in
  let ts := fst (generateLevel dif r) in
  (1 <= List.length ts)%nat
  /\ ((dif <= 12 # 10)%Q -> (2 <= List.length ts)%nat)
  /\ ((List.length ts < 2)%nat ->
      coeffA d - finalCoeff d = 0
      /\ constC1 d = 0
      /\ constC1 d + finalCoeff d * answer d = 0).
Proof.
  intros Hv d ts.
  pose proof (generateLevel_length dif r) as Hlen. fold d ts in Hlen.
  pose proof (drawNumbers_coeffA dif r Hv) as HA. fold d in HA.
  rewrite (nonZeroCount_rawTermsOf d HA) in Hlen.
  split; [lia|]. split.
  - intro Hd.
    assert (Hf : finalCoeff d = 1).
    { apply drawNumbers_finalCoeff_easy. unfold Qgtb.
      apply negb_false_iff, Qle_bool_iff. exact Hd. }
    rewrite Hf in Hlen.
    assert (E : (coeffA d - 1 =? 0) = false) by (apply Z.eqb_neq; lia).
    rewrite E in Hlen. lia.
  - intro Hlt.
    destruct (coeffA d - finalCoeff d =? 0) eqn:E1; [|lia].
    destruct (constC1 d =? 0) eqn:E2; [|lia].
    destruct (constC1 d + finalCoeff d * answer d =? 0) eqn:E3; [|lia].
    apply Z.eqb_eq in E1, E2, E3. auto.
Qed.

Lemma generateLevel_term_count_witness :
  let r := replay [1 # 2; 1 # 4; 3 # 4; 1 # 2; 1 # 3; 1 # 4; 1 # 5] 0 in
  let d := fst (drawNumbers 1 r) in
  let ts := fst (generateLevel 1 r) in
  Rand.valid r
  /\ (1 <= List.length ts)%nat
  /\ ((1 <= 12 # 10)%Q -> (2 <= List.length ts)%nat)
  /\ ((List.length ts < 2)%nat ->
      coeffA d - finalCoeff d = 0
      /\ constC1 d = 0
      /\ constC1 d + finalCoeff d * answer d = 0).
Proof.
  intros r d ts.
  assert (Hv : Rand.valid r) by (apply replay_valid; reflexivity).
  split; [exact Hv|].
  exact (generateLevel_term_count 1 r Hv).
Defined.

(** ** The status effect *)

Lemma statusEffect_terms (s : State) : terms (statusEffect s) = terms s.
Proof.
  unfold statusEffect.
  destruct (gameWon s); [reflexivity|].
  destruct (List.length (terms s) =? 2)%nat; [|reflexivity].
  destruct (filter (onSide lhs) (terms s)) as [|t1 [|? ?]]; try reflexivity.
  destruct (filter (onSide rhs) (terms s)) as [|t2 [|? ?]]; try reflexivity.
  destruct (hasVariable t1), (hasVariable t2); cbn [andb negb]; try reflexivity.
  - destruct (coefficient t1 =? 1); reflexivity.
  - destruct (coefficient t2 =? 1); reflexivity.
Qed.

(** The effect is idempotent: a second run on the state it left changes
    nothing, so it does not matter that React skips the runs whose
    dependencies did not change. *)
Lemma statusEffect_idem (s : State) :
  statusEffect (statusEffect s) = statusEffect s.
Proof.
  destruct s as [ts w sc n mo dm cd]. unfold statusEffect.
  cbn [gameWon terms].
  destruct w; [reflexivity|].
  destruct (List.length ts =? 2)%nat eqn:El; [|cbn; rewrite El; reflexivity].
  destruct (filter (onSide lhs) ts) as [|t1 [|? ?]] eqn:E1;
    try (cbn; rewrite El, E1; reflexivity).
  destruct (filter (onSide rhs) ts) as [|t2 [|? ?]] eqn:E2;
    try (cbn; rewrite El, E1, E2; reflexivity).
  destruct (hasVariable t1) eqn:H1, (hasVariable t2) eqn:H2; cbn [andb negb];
    try (cbn; rewrite El, E1, E2, H1, H2; reflexivity).
  - destruct (coefficient t1 =? 1) eqn:Ec; cbn; [reflexivity|].
    rewrite El, E1, E2, H1, H2; cbn. rewrite Ec. reflexivity.
  - destruct (coefficient t2 =? 1) eqn:Ec; cbn; [reflexivity|].
    rewrite El, E1, E2, H1, H2; cbn. rewrite Ec. reflexivity.
Qed.

Lemma reachable_settled (m : Machine) :
  reachable m -> statusEffect (mstate m) = mstate m.
Proof.
  intros [r Hr | m' e Hm He].
  - unfold mount. destruct (generateLevel 1 r). apply statusEffect_idem.
  - apply statusEffect_idem.
Qed.

(** ** Cross events *)

Lemma crossTerm_self (term : Term) (newSide : Side) :
  crossTerm term newSide term
  = mkTerm (id term) (- coefficient term) (hasVariable term) newSide.
Proof.
  unfold crossTerm. rewrite String.eqb_refl. f_equal. lia.
Qed.

Lemma crossTerm_other (term : Term) (newSide : Side) (t : Term) :
  id t <> id term -> crossTerm term newSide t = t.
Proof.
  intro H. unfold crossTerm. apply String.eqb_neq in H. rewrite H. reflexivity.
Qed.

Lemma crossTerm_back (term : Term) (newSide : Side) :
  crossTerm (crossTerm term newSide term) (side term)
    (crossTerm term newSide term) = term.
Proof.
  rewrite !crossTerm_self. destruct term as [i c h sd]. cbn.
  f_equal. lia.
Qed.

Lemma map_cross_twice (term : Term) (newSide : Side) (ts : list Term) :
  NoDup (map id ts) -> In term ts ->
  map (crossTerm (crossTerm term newSide term) (side term))
      (map (crossTerm term newSide) ts) = ts.
Proof.
  intros Hnd Hin. rewrite map_map.
  rewrite <- (map_id ts) at 2. apply map_ext_in. intros t Ht.
  destruct (String.eqb (id t) (id term)) eqn:E.
  - apply String.eqb_eq in E.
    assert (t = term).
    { clear - Hnd Hin Ht E. induction ts as [|u ts IH]; [contradiction|].
      cbn [map] in Hnd. inversion Hnd as [|? ? Hnot Hnd']; subst.
      destruct Hin as [Hin | Hin], Ht as [Ht | Ht]; subst.
      - reflexivity.
      - exfalso. apply Hnot. rewrite <- E. apply in_map. exact Ht.
      - exfalso. apply Hnot. rewrite E. apply in_map. exact Hin.
      - apply IH; assumption. }
    subst t. apply crossTerm_back.
  - apply String.eqb_neq in E.
    rewrite (crossTerm_other term newSide t E).
    apply crossTerm_other. rewrite crossTerm_self. exact E.
Qed.

Lemma handleDragEnd_gameWon (term : Term) (newSide : Side)
    (hit : string -> bool) (s : State) :
  gameWon (handleDragEnd term newSide hit s) = gameWon s.
Proof.
  unfold handleDragEnd. destruct (gameWon s) eqn:E; [exact E|].
  destruct (find _ _); [exact E|].
  destruct (negb _); exact E.
Qed.

(** C8. A drag that ends on the term's own side, with no merge candidate,
    leaves the whole state unchanged (also after the status effect, on a
    reachable state); a drag to the other side while the game is not won
    replaces the term by the term with the negated coefficient on the
    destination side and changes nothing else; and crossing the term back
    returns its coefficient and side, and the whole term list, to the
    original values. *)
Theorem cross_event (term : Term) (newSide : Side) (hit hit' : string -> bool)
    (s : State) :
  find (mergeCandidate term newSide hit) (terms s) = None ->
  let s1 := handleDragEnd term newSide hit s in
  let term1 := crossTerm term newSide term in
  (newSide = side term ->
     s1 = s
     /\ forall m, reachable m -> mstate m = s ->
          dispatch (DragEnd term newSide hit) m = m)
  /\ (newSide <> side term -> gameWon s = false ->
        s1 = setTerms (map (crossTerm term newSide)) s
        /\ coefficient term1 = - coefficient term
        /\ side term1 = newSide
        /\ id term1 = id term
        /\ hasVariable term1 = hasVariable term
        /\ (In term (terms s) -> In term1 (terms s1))
        /\ (forall t, In t (terms s) -> id t <> id term -> In t (terms s1)))
  /\ (newSide <> side term -> gameWon s = false ->
        find (mergeCandidate term1 (side term) hit') (terms s1) = None ->
        NoDup (map id (terms s)) -> In term (terms s) ->
        coefficient (crossTerm term1 (side term) term1) = coefficient term
        /\ side (crossTerm term1 (side term) term1) = side term
        /\ handleDragEnd term1 (side term) hit' s1 = s).
Proof.
  intros Hnone s1 term1.
  assert (Hsame : newSide = side term -> s1 = s).
  { intro Hs. unfold s1, handleDragEnd. destruct (gameWon s); [reflexivity|].
    rewrite Hnone, Hs, Side_eqb_refl. reflexivity. }
  assert (Hcross : newSide <> side term -> gameWon s = false ->
                   s1 = setTerms (map (crossTerm term newSide)) s).
  { intros Hs Hw. unfold s1, handleDragEnd. rewrite Hw, Hnone.
    destruct (Side_eqb newSide (side term)) eqn:E; [|reflexivity].
    apply Side_eqb_eq in E. contradiction. }
  split; [|split].
  - intro Hs. split; [exact (Hsame Hs)|].
    intros m Hm Hst.
    assert (Hfix : statusEffect s = s)
      by (rewrite <- Hst; apply reachable_settled; exact Hm).
    unfold dispatch, handle. rewrite Hst.
    change (handleDragEnd term newSide hit s) with s1.
    rewrite (Hsame Hs). cbn [mstate rng timers]. rewrite Hfix, <- Hst.
    destruct m; reflexivity.
  - intros Hs Hw. split; [exact (Hcross Hs Hw)|].
    unfold term1. rewrite crossTerm_self. cbn.
    repeat split; try reflexivity.
    + intro Hin. rewrite (Hcross Hs Hw). cbn [setTerms terms].
      rewrite <- (crossTerm_self term newSide).
      apply in_map. exact Hin.
    + intros t Hin Hid. rewrite (Hcross Hs Hw). cbn [setTerms terms].
      rewrite <- (crossTerm_other term newSide t Hid).
      apply in_map. exact Hin.
  - intros Hs Hw Hnone' Hnd Hin.
    unfold term1. rewrite crossTerm_back.
    split; [reflexivity|]. split; [reflexivity|].
    fold term1. unfold handleDragEnd.
    rewrite (Hcross Hs Hw) in *. cbn [setTerms gameWon terms] in *.
    rewrite Hw, Hnone'.
    assert (E : Side_eqb (side term) (side term1) = false).
    { unfold term1. rewrite crossTerm_self. cbn.
      destruct (Side_eqb (side term) newSide) eqn:E; [|reflexivity].
      apply Side_eqb_eq in E. congruence. }
    rewrite E. cbn [negb]. unfold setTerms.
    cbn [terms gameWon score solvedCount modal divisionModal canDivide].
    unfold term1. rewrite (map_cross_twice term newSide (terms s) Hnd Hin).
    destruct s; reflexivity.
Qed.

Lemma exampleMachine_state :
  mstate exampleMachine = exampleState
  /\ answer (fst (drawNumbers 1 exampleSrc)) = 4.
Proof. split; vm_compute; reflexivity. Qed.

Lemma exampleMachine_reachable : reachable exampleMachine.
Proof. apply reachable_mount. apply replay_valid; reflexivity. Qed.

Lemma cross_event_witness :
  let s := exampleState in
  let five := mkTerm "9" 5 false lhs in
  let five' := mkTerm "9" (-5) false rhs in
  handleDragEnd five lhs noHit s = s
  /\ dispatch (DragEnd five lhs noHit) exampleMachine = exampleMachine
  /\ In five' (terms (handleDragEnd five rhs noHit s))
  /\ handleDragEnd five' lhs noHit (handleDragEnd five rhs noHit s) = s.
Proof.
  intros s five five'.
  destruct (cross_event five lhs noHit noHit s eq_refl) as [H1 _].
  destruct (H1 eq_refl) as [H1a H1b].
  destruct (cross_event five rhs noHit noHit s eq_refl) as (_ & H2 & H3).
  assert (Hne : rhs <> side five) by discriminate.
  assert (Hin : In five (terms s)) by (right; right; left; reflexivity).
  assert (Hnd : NoDup (map id (terms s))).
  { cbn. repeat constructor; cbn; intuition discriminate. }
  destruct (H2 Hne eq_refl) as (_ & _ & _ & _ & _ & H2in & _).
  destruct (H3 Hne eq_refl eq_refl Hnd Hin) as (_ & _ & H3c).
  exact (conj H1a
           (conj (H1b exampleMachine exampleMachine_reachable
                    (proj1 exampleMachine_state))
              (conj (H2in Hin) H3c))).
Defined.

(** ** Merge negotiation *)

Lemma statusEffect_setModal (f : ModalState -> ModalState) (s : State) :
  statusEffect (setModal f s) = setModal f (statusEffect s).
Proof.
  destruct s as [ts w sc n mo dm cd]. unfold statusEffect.
  cbn [setModal gameWon terms score solvedCount modal divisionModal canDivide].
  destruct w; [reflexivity|].
  destruct (List.length ts =? 2)%nat; [|reflexivity].
  destruct (filter (onSide lhs) ts) as [|t1 [|? ?]]; try reflexivity.
  destruct (filter (onSide rhs) ts) as [|t2 [|? ?]]; try reflexivity.
  destruct (hasVariable t1), (hasVariable t2); cbn [andb negb]; try reflexivity.
  - destruct (coefficient t1 =? 1); reflexivity.
  - destruct (coefficient t2 =? 1); reflexivity.
Qed.

Lemma mergeCandidate_true (term : Term) (newSide : Side)
    (hit : string -> bool) (t : Term) :
  mergeCandidate term newSide hit t = true ->
  id t <> id term /\ side t = newSide /\ hasVariable t = hasVariable term
  /\ hit (id t) = true.
Proof.
  unfold mergeCandidate.
  destruct (String.eqb (id t) (id term)) eqn:E1; [discriminate|].
  destruct (Side_eqb (side t) newSide) eqn:E2; cbn [negb]; [|discriminate].
  destruct (Bool.eqb (hasVariable t) (hasVariable term)) eqn:E3;
    cbn [negb]; [|discriminate].
  intro H. apply String.eqb_neq in E1. apply Side_eqb_eq in E2.
  apply Bool.eqb_prop in E3. auto.
Qed.

Lemma find_mergeCandidate (term : Term) (newSide : Side)
    (hit : string -> bool) (ts : list Term) (o : Term) :
  find (mergeCandidate term newSide hit) ts = Some o ->
  In o ts /\ id o <> id term /\ side o = newSide
  /\ hasVariable o = hasVariable term.
Proof.
  intro Hfind. pose proof (find_some _ _ Hfind) as [Hin Hc].
  apply mergeCandidate_true in Hc. tauto.
Qed.

Lemma handleDragEnd_candidate (term : Term) (newSide : Side)
    (hit : string -> bool) (s : State) (o : Term) :
  gameWon s = false ->
  find (mergeCandidate term newSide hit) (terms s) = Some o ->
  handleDragEnd term newSide hit s
  = setModal
      (fun _ =>
         mkModal true
           (Some (mkTerm (id term) (effectiveCoefficient term newSide)
                    (hasVariable term) newSide))
           (Some o) "" None)
      s.
Proof.
  intros Hw Hfind. unfold handleDragEnd, effectiveCoefficient.
  rewrite Hw, Hfind.
  destruct (Side_eqb newSide (side term)); cbn [negb]; [reflexivity|].
  replace (-1 * coefficient term) with (- coefficient term) by lia.
  reflexivity.
Qed.

(** C10. When a drag ends on a merge candidate (another term of the
    destination side and of the same kind), neither the terms nor the score
    (nor the solved count, the won flag or the division status) change when
    the merge dialog opens: the dragged term keeps its side and coefficient,
    the sign flip exists only in the copy held by the dialog, and the Cancel
    button gives back the state before the drag. *)
Theorem merge_negotiation_frame (term : Term) (newSide : Side)
    (hit : string -> bool) (s : State) (o : Term) :
  find (mergeCandidate term newSide hit) (terms s) = Some o ->
  let s1 := handleDragEnd term newSide hit s in
  (In o (terms s) /\ id o <> id term /\ side o = newSide
   /\ hasVariable o = hasVariable term)
  /\ terms s1 = terms s
  /\ score s1 = score s
  /\ solvedCount s1 = solvedCount s
  /\ gameWon s1 = gameWon s
  /\ canDivide s1 = canDivide s
  /\ divisionModal s1 = divisionModal s
  /\ (gameWon s = false ->
      modal s1
      = mkModal true
          (Some (mkTerm (id term) (effectiveCoefficient term newSide)
                   (hasVariable term) newSide))
          (Some o) "" None)
  /\ (modal s = closedModal -> closeModal s1 = s)
  /\ (forall m, reachable m -> mstate m = s -> modal s = closedModal ->
        run [DragEnd term newSide hit; MergeCancel] m = m).
Proof.
  intros Hfind s1.
  pose proof (find_some _ _ Hfind) as [Hin Hc].
  apply mergeCandidate_true in Hc. destruct Hc as (Hid & Hsd & Hhv & _).
  assert (Hs1 : s1 = setModal (fun _ => modal s1) s).
  { unfold s1, handleDragEnd. destruct (gameWon s); [destruct s; reflexivity|].
    rewrite Hfind. reflexivity. }
  assert (Hclose : modal s = closedModal -> closeModal s1 = s).
  { intro Hm. rewrite Hs1. unfold closeModal, setModal. cbn.
    rewrite <- Hm. destruct s; reflexivity. }
  split; [auto|].
  repeat (split; [rewrite Hs1; reflexivity|]).
  split; [|split; [exact Hclose|]].
  - intro Hw. unfold s1, handleDragEnd, effectiveCoefficient.
    rewrite Hw, Hfind. cbn [setModal modal].
    destruct (Side_eqb newSide (side term)); cbn [negb]; repeat f_equal; lia.
  - intros m Hm Hst Hmo.
    assert (Hfix : statusEffect s = s)
      by (rewrite <- Hst; apply reachable_settled; exact Hm).
    assert (Hh : handleDragEnd term newSide hit s = s1) by reflexivity.
    clearbody s1.
    assert (Hd : dispatch (DragEnd term newSide hit) m
                 = mkMachine (setModal (fun _ => modal s1) s) (rng m) (timers m)).
    { unfold dispatch, handle. rewrite Hst, Hh. cbn [mstate rng timers].
      rewrite Hs1 at 1. rewrite statusEffect_setModal, Hfix. reflexivity. }
    unfold run. cbn [fold_left]. rewrite Hd.
    unfold dispatch, handle. cbn [mstate rng timers].
    replace (closeModal (setModal (fun _ => modal s1) s)) with s
      by (unfold closeModal; rewrite <- Hmo; destruct s; reflexivity).
    rewrite Hfix, <- Hst. destruct m; reflexivity.
Qed.

Lemma merge_negotiation_frame_witness :
  let s := exampleState in
  let nine := mkTerm "777777777" 9 false rhs in
  let five := mkTerm "9" 5 false lhs in
  let s1 := handleDragEnd nine lhs (hitOn "9") s in
  terms s1 = terms s
  /\ score s1 = score s
  /\ modal s1 = mkModal true (Some (mkTerm "777777777" (-9) false lhs))
                  (Some five) "" None
  /\ closeModal s1 = s
  /\ run [DragEnd nine lhs (hitOn "9"); MergeCancel] exampleMachine
     = exampleMachine.
Proof.
  intros s nine five s1.
  destruct (merge_negotiation_frame nine lhs (hitOn "9") s five eq_refl)
    as (_ & Ht & Hs & _ & _ & _ & _ & Hm & Hc & Hr).
  exact (conj Ht (conj Hs (conj (Hm eq_refl) (conj (Hc eq_refl)
           (Hr exampleMachine exampleMachine_reachable
              (proj1 exampleMachine_state) eq_refl))))).
Defined.

(** ** Merge submissions *)

Lemma mergedTerms_eq (a b newTerm : Term) (prev : list Term) :
  mergedTerms a b newTerm prev = filter (keepOthers a b) prev ++ [newTerm].
Proof. reflexivity. Qed.

Lemma keepOthers_true (a b t : Term) :
  keepOthers a b t = true <-> id t <> id a /\ id t <> id b.
Proof.
  unfold keepOthers. rewrite andb_true_iff, !negb_true_iff, !String.eqb_neq.
  tauto.
Qed.

Lemma filter_all {A} (p : A -> bool) (l : list A) :
  (forall t, In t l -> p t = true) -> filter p l = l.
Proof.
  induction l as [|u l IH]; intro H; [reflexivity|].
  cbn [filter]. rewrite (H u (or_introl eq_refl)).
  f_equal. apply IH. intros t Ht. apply H. right. exact Ht.
Qed.

Lemma length_filter_one (i : string) (l : list Term) :
  NoDup (map id l) -> In i (map id l) ->
  (List.length (filter (fun t => negb (String.eqb (id t) i)) l) + 1
   = List.length l)%nat.
Proof.
  induction l as [|u l IH]; intros Hnd Hin; [contradiction|].
  cbn [map] in Hnd. inversion Hnd as [|? ? Hnot Hnd']; subst.
  cbn [filter]. destruct (String.eqb (id u) i) eqn:E; cbn [negb].
  - apply String.eqb_eq in E. subst i.
    rewrite filter_all; [cbn [List.length]; lia|].
    intros t Ht. apply negb_true_iff, String.eqb_neq. intro Heq.
    apply Hnot. rewrite <- Heq. apply in_map. exact Ht.
  - apply String.eqb_neq in E. destruct Hin as [Hin | Hin]; [contradiction|].
    cbn [List.length]. specialize (IH Hnd' Hin). lia.
Qed.

Lemma length_filter_two (a b : Term) (l : list Term) :
  NoDup (map id l) -> In (id a) (map id l) -> In (id b) (map id l) ->
  id a <> id b ->
  (List.length (filter (keepOthers a b) l) + 2 = List.length l)%nat.
Proof.
  intros Hnd Ha Hb Hab.
  induction l as [|u l IH]; [contradiction|].
  cbn [map] in Hnd. inversion Hnd as [|? ? Hnot Hnd']; subst.
  cbn [filter]. unfold keepOthers at 1.
  destruct (String.eqb (id u) (id a)) eqn:Ea; cbn [negb andb].
  - apply String.eqb_eq in Ea.
    destruct Hb as [Hb | Hb]; [congruence|].
    rewrite (filter_ext_in (keepOthers a b)
               (fun t => negb (String.eqb (id t) (id b)))).
    + pose proof (length_filter_one (id b) l Hnd' Hb). cbn [List.length]. lia.
    + intros t Ht. unfold keepOthers.
      assert (E : String.eqb (id t) (id a) = false).
      { apply String.eqb_neq. intro Heq. apply Hnot. rewrite Ea, <- Heq.
        apply in_map. exact Ht. }
      rewrite E. reflexivity.
  - apply String.eqb_neq in Ea.
    destruct Ha as [Ha | Ha]; [congruence|].
    destruct (String.eqb (id u) (id b)) eqn:Eb; cbn [negb].
    + apply String.eqb_eq in Eb.
      rewrite (filter_ext_in (keepOthers a b)
                 (fun t => negb (String.eqb (id t) (id a)))).
      * pose proof (length_filter_one (id a) l Hnd' Ha). cbn [List.length]. lia.
      * intros t Ht. unfold keepOthers.
        assert (E : String.eqb (id t) (id b) = false).
        { apply String.eqb_neq. intro Heq. apply Hnot. rewrite Eb, <- Heq.
          apply in_map. exact Ht. }
        rewrite E. apply andb_true_r.
    + apply String.eqb_neq in Eb.
      destruct Hb as [Hb | Hb]; [congruence|].
      cbn [List.length]. specialize (IH Hnd' Ha Hb). lia.
Qed.

Lemma strictEqZ_true (p : Parsed) (z : Z) : strictEqZ p z = true <-> p = Int z.
Proof.
  destruct p as [|u]; cbn.
  - split; discriminate.
  - rewrite Z.eqb_eq. split; congruence.
Qed.

Lemma mergeOutcome_accepted (s : State) (a b : Term) :
  termA (modal s) = Some a -> termB (modal s) = Some b ->
  (mergeOutcome s = mergeAccepted
   <-> parseInt (inputValue (modal s)) = Int (coefficient a + coefficient b)).
Proof.
  intros Ha Hb. unfold mergeOutcome. rewrite Ha, Hb.
  destruct (parseInt (inputValue (modal s))) as [|u] eqn:E; cbn.
  - split; discriminate.
  - destruct (u =? coefficient a + coefficient b) eqn:Eu.
    + apply Z.eqb_eq in Eu. subst u. tauto.
    + apply Z.eqb_neq in Eu. split; [discriminate | congruence].
Qed.

Lemma handleMergeSubmit_accepted (s : State) (r : Rand.Src) (a b : Term) :
  termA (modal s) = Some a -> termB (modal s) = Some b ->
  parseInt (inputValue (modal s)) = Int (coefficient a + coefficient b) ->
  fst (handleMergeSubmit s r)
  = closeModal (setTerms (mergedTerms a b (mergeResult a b (fst (generateId r)))) s).
Proof.
  intros Ha Hb Hp. unfold handleMergeSubmit. rewrite Ha, Hb, Hp.
  cbn [isNaN strictEqZ]. rewrite Z.eqb_refl.
  unfold Rand.bind, Rand.ret. destruct (generateId r). reflexivity.
Qed.

Lemma handleMergeSubmit_not_accepted (s : State) (r : Rand.Src) (a b : Term) :
  termA (modal s) = Some a -> termB (modal s) = Some b ->
  parseInt (inputValue (modal s)) <> Int (coefficient a + coefficient b) ->
  handleMergeSubmit s r
  = (if isNaN (parseInt (inputValue (modal s)))
     then setModal (withError "Please enter a valid number") s
     else setModal (withError "Incorrect sum. -2 Points!")
            (setScore (fun x => x - 2) s), r).
Proof.
  intros Ha Hb Hp. unfold handleMergeSubmit. rewrite Ha, Hb.
  destruct (parseInt (inputValue (modal s))) as [|u]; [reflexivity|].
  cbn [isNaN strictEqZ].
  destruct (u =? coefficient a + coefficient b) eqn:Eu; [|reflexivity].
  apply Z.eqb_eq in Eu. congruence.
Qed.

(** C3. A merge submission on the pending terms [a] and [b] is accepted if
    and only if the submitted text parses to an integer equal to
    [coefficient a + coefficient b]; an accepted submission removes every
    term with the id of [a] or of [b] and appends exactly one new term, on
    the side of [b], whose coefficient is the sum and whose [hasVariable] is
    false when the sum is 0 and that of [a] otherwise (with distinct ids the
    term list gets one shorter); any other submission leaves the terms and
    keeps the dialog open with an error. *)
Theorem handleMergeSubmit_spec (s : State) (r : Rand.Src) (a b : Term) :
  termA (modal s) = Some a -> termB (modal s) = Some b ->
  let sum := coefficient a + coefficient b in
  let s' := fst (handleMergeSubmit s r) in
  let newTerm := mergeResult a b (fst (generateId r)) in
  (mergeOutcome s = mergeAccepted
   <-> parseInt (inputValue (modal s)) = Int sum)
  /\ (parseInt (inputValue (modal s)) = Int sum ->
      terms s' = filter (keepOthers a b) (terms s) ++ [newTerm]
      /\ (forall t, In t (filter (keepOthers a b) (terms s)) ->
            In t (terms s) /\ id t <> id a /\ id t <> id b)
      /\ side newTerm = side b
      /\ coefficient newTerm = sum
      /\ (sum = 0 -> hasVariable newTerm = false)
      /\ (sum <> 0 -> hasVariable newTerm = hasVariable a)
      /\ modal s' = closedModal
      /\ score s' = score s
      /\ (NoDup (map id (terms s)) ->
          In (id a) (map id (terms s)) -> In (id b) (map id (terms s)) ->
          id a <> id b ->
          (List.length (terms s') + 1 = List.length (terms s))%nat))
  /\ (parseInt (inputValue (modal s)) <> Int sum ->
      terms s' = terms s
      /\ isOpen (modal s') = isOpen (modal s)
      /\ error (modal s') <> None).
Proof.
  intros Ha Hb sum s' newTerm.
  split; [apply mergeOutcome_accepted; assumption|]. split.
  - intro Hp. unfold s'.
    rewrite (handleMergeSubmit_accepted s r a b Ha Hb Hp).
    fold newTerm. cbn [closeModal setModal setTerms terms modal score].
    rewrite mergedTerms_eq.
    split; [reflexivity|]. split.
    { intros t Ht. apply filter_In in Ht. destruct Ht as [Hin Hk].
      apply keepOthers_true in Hk. tauto. }
    split; [reflexivity|]. split; [reflexivity|]. split.
    { intro H0. unfold newTerm, mergeResult. cbn [hasVariable].
      fold sum. rewrite H0. reflexivity. }
    split.
    { intro H0. unfold newTerm, mergeResult. cbn [hasVariable].
      fold sum. apply Z.eqb_neq in H0. rewrite H0. reflexivity. }
    split; [reflexivity|]. split; [reflexivity|].
    intros Hnd Hia Hib Hab. rewrite length_app. cbn [List.length].
    pose proof (length_filter_two a b (terms s) Hnd Hia Hib Hab). lia.
  - intro Hp. unfold s'.
    rewrite (handleMergeSubmit_not_accepted s r a b Ha Hb Hp). cbn [fst].
    destruct (isNaN _); cbn; repeat split; discriminate.
Qed.

Lemma handleMergeSubmit_spec_witness :
  let s := mergePending "-4" in
  let s' := fst (handleMergeSubmit s exampleSrc) in
  mergeOutcome s = mergeAccepted
  /\ terms s' = [ mkTerm "i" 3 true lhs; mkTerm "c" 2 true rhs;
                  mkTerm "u" (-4) false lhs ]
  /\ (List.length (terms s') + 1 = List.length (terms s))%nat.
Proof.
  intros s s'.
  destruct (handleMergeSubmit_spec s exampleSrc
              (mkTerm "777777777" (-9) false lhs) fiveTerm eq_refl eq_refl)
    as (H1 & H2 & _).
  destruct (H2 eq_refl) as (Ht & _ & _ & _ & _ & _ & _ & _ & Hlen).
  assert (Hnd : NoDup (map id (terms s))).
  { cbn. repeat constructor; cbn; intuition discriminate. }
  refine (conj (proj2 H1 eq_refl) (conj Ht (Hlen Hnd _ _ _))).
  - right; right; right; left; reflexivity.
  - right; right; left; reflexivity.
  - discriminate.
Defined.

(** ** Division submissions *)

Lemma exact_quotient (r m k : Z) :
  k <> 0 -> ((inject_Z r == inject_Z m / inject_Z k)%Q <-> r * k = m).
Proof.
  intro Hk.
  assert (Hq : ~ (inject_Z k == 0)%Q).
  { change 0%Q with (inject_Z 0). rewrite inject_Z_injective. exact Hk. }
  split; intro H.
  - apply inject_Z_injective. rewrite inject_Z_mult, H.
    field. exact Hq.
  - rewrite <- H, inject_Z_mult. field. exact Hq.
Qed.

Lemma strictEqQuot_true (p : Parsed) (m k : Z) :
  strictEqQuot p (jsDiv m k) = true
  <-> exists r, p = Int r /\ k <> 0
                /\ (inject_Z r == inject_Z m / inject_Z k)%Q.
Proof.
  unfold jsDiv. destruct (k =? 0) eqn:Ek.
  - apply Z.eqb_eq in Ek. destruct p; cbn; split; try discriminate.
    + intros (r & Hr & _). discriminate.
    + intros (r & _ & Hk & _). contradiction.
  - apply Z.eqb_neq in Ek. destruct p as [|u]; cbn.
    + split; [discriminate|]. intros (r & Hr & _). discriminate.
    + rewrite Qeq_bool_iff. split.
      * intro H. exists u. auto.
      * intros (r & Hr & _ & H). injection Hr as ->. exact H.
Qed.

Lemma handleDivisionSubmit_accepted (s : State) :
  divisionAccepted s = true ->
  handleDivisionSubmit s
  = closeDivisionModal
      (setTerms
         (map (divided (valueOf (parseInt (resultInput (divisionModal s))))))
         s).
Proof.
  unfold divisionAccepted, handleDivisionSubmit. intro H. rewrite H.
  reflexivity.
Qed.

Lemma handleDivisionSubmit_rejected (s : State) :
  divisionAccepted s = false ->
  handleDivisionSubmit s
  = setDivisionModal
      (fun prev =>
         mkDivisionModal (dIsOpen prev) (divisor prev) (dividend prev)
           (divisorInput prev) (resultInput prev) (Some (divisionError s)))
      (setScore (fun x => x - 2) s).
Proof.
  unfold divisionAccepted, handleDivisionSubmit, divisionError. intro H.
  rewrite H.
  destruct (strictEqZ _ _); cbn [andb negb] in *; [|reflexivity].
  rewrite H. reflexivity.
Qed.

Lemma divisionPending_state (s0 : State) (k m : Z) (v1 v2 : string) :
  canDivide s0 = Some (k, m) ->
  divisionModal (divisionPending v1 v2 s0) = mkDivisionModal true k m v1 v2 None
  /\ terms (divisionPending v1 v2 s0) = terms s0
  /\ score (divisionPending v1 v2 s0) = score s0.
Proof.
  intro Hcd. unfold divisionPending, handleDivisionClick. rewrite Hcd.
  repeat split.
Qed.

Lemma divisionPending_accepted (s0 : State) (k m : Z) (v1 v2 : string) :
  canDivide s0 = Some (k, m) ->
  (divisionAccepted (divisionPending v1 v2 s0) = true
   <-> parseInt v1 = Int k
       /\ exists r, parseInt v2 = Int r /\ k <> 0
                    /\ (inject_Z r == inject_Z m / inject_Z k)%Q /\ r * k = m).
Proof.
  intro Hcd.
  destruct (divisionPending_state s0 k m v1 v2 Hcd) as (Hdm & _).
  unfold divisionAccepted. rewrite Hdm.
  cbn [divisorInput resultInput divisor dividend].
  rewrite andb_true_iff, strictEqZ_true, strictEqQuot_true.
  split.
  - intros [H1 (r & Hr & Hk & Hq)]. split; [exact H1|].
    exists r. repeat split; try assumption.
    apply (exact_quotient r m k Hk). exact Hq.
  - intros [H1 (r & Hr & Hk & Hq & _)]. split; [exact H1|].
    exists r. auto.
Qed.

Lemma divisionPending_submit_accepted (s0 : State) (k m : Z) (v1 v2 : string) :
  canDivide s0 = Some (k, m) ->
  divisionAccepted (divisionPending v1 v2 s0) = true ->
  terms (handleDivisionSubmit (divisionPending v1 v2 s0))
  = map (divided (valueOf (parseInt v2))) (terms s0).
Proof.
  intros Hcd Ha.
  destruct (divisionPending_state s0 k m v1 v2 Hcd) as (Hdm & Hts & _).
  rewrite (handleDivisionSubmit_accepted _ Ha), Hdm. cbn [resultInput].
  cbn [closeDivisionModal setDivisionModal setTerms terms].
  rewrite Hts. reflexivity.
Qed.

(** C4. While the state is division-ready with divisor [k] and dividend
    [m], a division submission of the texts [v1], [v2] is accepted if and
    only if [v1] parses to [k] and [v2] parses to an integer equal to the
    exact quotient [m / k] (that is, [r * k = m], with [k] not zero); an
    accepted submission gives every variable term the coefficient 1 and
    every constant term the submitted result; a rejected one leaves the
    terms, and its error names the divisor whenever the submitted divisor
    is not [k], also when the result is wrong too, and the math otherwise. *)
Theorem handleDivisionSubmit_spec (s0 : State) (k m : Z) (v1 v2 : string) :
  canDivide s0 = Some (k, m) ->
  let s := divisionPending v1 v2 s0 in
  let s' := handleDivisionSubmit s in
  (divisionAccepted s = true
   <-> parseInt v1 = Int k
       /\ exists r, parseInt v2 = Int r /\ k <> 0
                    /\ (inject_Z r == inject_Z m / inject_Z k)%Q /\ r * k = m)
  /\ (divisionAccepted s = true ->
      terms s' = map (divided (valueOf (parseInt v2))) (terms s0)
      /\ (forall t, In t (terms s') ->
            (hasVariable t = true -> coefficient t = 1)
            /\ (hasVariable t = false -> parseInt v2 = Int (coefficient t)))
      /\ score s' = score s0
      /\ divisionModal s' = closedDivisionModal)
  /\ (divisionAccepted s = false ->
      terms s' = terms s0
      /\ score s' = score s0 - 2
      /\ (parseInt v1 <> Int k ->
          dError (divisionModal s')
          = Some "Incorrect. Check the divisor. (-2 pts)"%string)
      /\ (parseInt v1 = Int k ->
          dError (divisionModal s')
          = Some "Incorrect. Check the math. (-2 pts)"%string)).
Proof.
  intros Hcd s s'.
  destruct (divisionPending_state s0 k m v1 v2 Hcd) as (Hdm & Hts & Hsc).
  fold s in Hdm, Hts, Hsc.
  pose proof (divisionPending_accepted s0 k m v1 v2 Hcd) as Hacc.
  fold s in Hacc.
  split; [exact Hacc|]. split.
  - intro Ha. unfold s'. rewrite (handleDivisionSubmit_accepted s Ha).
    rewrite Hdm. cbn [resultInput].
    cbn [closeDivisionModal setDivisionModal setTerms terms score divisionModal].
    rewrite Hts, Hsc. split; [reflexivity|]. split; [|split; reflexivity].
    intros t Ht. apply in_map_iff in Ht. destruct Ht as (u & <- & _).
    apply Hacc in Ha. destruct Ha as [_ (r & Hr & _)].
    rewrite Hr. unfold divided. cbn.
    destruct (hasVariable u); split; intro; congruence.
  - intro Hr. unfold s'. rewrite (handleDivisionSubmit_rejected s Hr).
    cbn [setDivisionModal setScore terms score divisionModal dError].
    rewrite Hts, Hsc. split; [reflexivity|]. split; [reflexivity|].
    unfold divisionError. rewrite Hdm. cbn [divisorInput divisor].
    split; intro H.
    + destruct (strictEqZ (parseInt v1) k) eqn:E; [|reflexivity].
      apply strictEqZ_true in E. contradiction.
    + apply strictEqZ_true in H. rewrite H. reflexivity.
Qed.

Lemma handleDivisionSubmit_spec_witness :
  let s0 := divisionReadyState in
  (divisionAccepted (divisionPending "-1" "4" s0) = true
   /\ terms (handleDivisionSubmit (divisionPending "-1" "4" s0))
      = [ mkTerm "6" 1 true rhs; mkTerm "4" 4 false lhs ])
  /\ (divisionAccepted (divisionPending "1" "5" s0) = false
      /\ terms (handleDivisionSubmit (divisionPending "1" "5" s0)) = terms s0
      /\ score (handleDivisionSubmit (divisionPending "1" "5" s0)) = -2
      /\ dError (divisionModal (handleDivisionSubmit (divisionPending "1" "5" s0)))
         = Some "Incorrect. Check the divisor. (-2 pts)"%string).
Proof.
  intro s0.
  destruct (handleDivisionSubmit_spec s0 (-1) (-4) "-1" "4" eq_refl)
    as (Hacc & Hok & _).
  destruct (handleDivisionSubmit_spec s0 (-1) (-4) "1" "5" eq_refl)
    as (_ & _ & Hrej).
  assert (Ha : divisionAccepted (divisionPending "-1" "4" s0) = true).
  { apply Hacc. split; [reflexivity|]. exists 4.
    repeat split. discriminate. }
  destruct (Hok Ha) as (Ht & _).
  destruct (Hrej eq_refl) as (Ht' & Hs' & Hd & _).
  exact (conj (conj Ha Ht)
           (conj eq_refl (conj Ht' (conj Hs' (Hd ltac:(discriminate)))))).
Defined.

(** ** Rejected submissions *)

Lemma statusEffect_setScore_settled (f : Z -> Z) (s : State) :
  statusEffect s = s -> statusEffect (setScore f s) = setScore f s.
Proof.
  destruct s as [ts w sc n mo dm cd]. unfold statusEffect.
  cbn [setScore gameWon terms score solvedCount modal divisionModal canDivide].
  destruct w.
  { cbn. intro H. injection H as ->. reflexivity. }
  destruct (List.length ts =? 2)%nat.
  2:{ cbn. intro H. injection H as ->. reflexivity. }
  destruct (filter (onSide lhs) ts) as [|t1 [|? ?]]; try reflexivity.
  destruct (filter (onSide rhs) ts) as [|t2 [|? ?]]; try reflexivity.
  destruct (hasVariable t1), (hasVariable t2); cbn [andb negb]; try reflexivity.
  - destruct (coefficient t1 =? 1); cbn; intro H; [discriminate|].
    injection H as <-. reflexivity.
  - destruct (coefficient t2 =? 1); cbn; intro H; [discriminate|].
    injection H as <-. reflexivity.
Qed.

Lemma statusEffect_setDivisionModal (f : DivisionModal -> DivisionModal)
    (s : State) :
  statusEffect (setDivisionModal f s) = setDivisionModal f (statusEffect s).
Proof.
  destruct s as [ts w sc n mo dm cd]. unfold statusEffect.
  cbn [setDivisionModal gameWon terms score solvedCount modal divisionModal
         canDivide].
  destruct w; [reflexivity|].
  destruct (List.length ts =? 2)%nat; [|reflexivity].
  destruct (filter (onSide lhs) ts) as [|t1 [|? ?]]; try reflexivity.
  destruct (filter (onSide rhs) ts) as [|t2 [|? ?]]; try reflexivity.
  destruct (hasVariable t1), (hasVariable t2); cbn [andb negb]; try reflexivity.
  - destruct (coefficient t1 =? 1); reflexivity.
  - destruct (coefficient t2 =? 1); reflexivity.
Qed.

(** C5, as stated, fails: on the example level, with the 9 dropped on the 5
    and the text [abc] typed, the submission is rejected as not a number
    (the terms stay, the dialog shows the error) and the score is still 0,
    not -2. *)
Lemma merge_invalid_no_penalty :
  let m := run [ DragEnd nineTerm lhs (hitOn "9"); ChangeMergeInput "abc";
                 MergeSubmit ] exampleMachine in
  mergeOutcome (mergePending "abc") = mergeInvalid
  /\ terms (mstate m) = terms (mstate exampleMachine)
  /\ error (modal (mstate m)) = Some "Please enter a valid number"%string
  /\ score (mstate exampleMachine) = 0
  /\ score (mstate m) = 0
  /\ score (mstate m) <> score (mstate exampleMachine) - 2.
Proof.
  vm_compute. repeat split; discriminate.
Qed.

(** C5, amended. Every rejected division submission, and every merge
    submission rejected for a wrong (numeric) sum, decreases the score by
    exactly 2 and leaves the terms unchanged, also after the status effect
    and after the dismiss timer of the merge has fired; a merge submission
    rejected because the text is not a number leaves the terms and the score
    both unchanged: it shows an error and costs nothing. *)
Theorem rejected_submissions (m : Machine) (a b : Term) :
  reachable m ->
  let s := mstate m in
  (divisionAccepted s = false ->
     terms (handleDivisionSubmit s) = terms s
     /\ score (handleDivisionSubmit s) = score s - 2
     /\ terms (mstate (dispatch DivisionSubmit m)) = terms s
     /\ score (mstate (dispatch DivisionSubmit m)) = score s - 2)
  /\ (termA (modal s) = Some a -> termB (modal s) = Some b ->
      forall u, parseInt (inputValue (modal s)) = Int u ->
      u <> coefficient a + coefficient b ->
      mergeOutcome s = mergeRejected
      /\ terms (fst (handleMergeSubmit s (rng m))) = terms s
      /\ score (fst (handleMergeSubmit s (rng m))) = score s - 2
      /\ terms (mstate (dispatch MergeSubmit m)) = terms s
      /\ score (mstate (dispatch MergeSubmit m)) = score s - 2
      /\ terms (mstate (run [MergeSubmit; MergeTimeout] m)) = terms s
      /\ score (mstate (run [MergeSubmit; MergeTimeout] m)) = score s - 2)
  /\ (termA (modal s) = Some a -> termB (modal s) = Some b ->
      parseInt (inputValue (modal s)) = NaN ->
      mergeOutcome s = mergeInvalid
      /\ terms (fst (handleMergeSubmit s (rng m))) = terms s
      /\ score (fst (handleMergeSubmit s (rng m))) = score s
      /\ error (modal (fst (handleMergeSubmit s (rng m))))
         = Some "Please enter a valid number"%string
      /\ terms (mstate (dispatch MergeSubmit m)) = terms s
      /\ score (mstate (dispatch MergeSubmit m)) = score s).
Proof.
  intros Hm s.
  pose proof (reachable_settled m Hm) as Hfix. fold s in Hfix.
  split; [|split].
  - intro Hr.
    assert (Hd : mstate (dispatch DivisionSubmit m) = handleDivisionSubmit s).
    { unfold dispatch, handle. cbn [mstate]. fold s.
      rewrite (handleDivisionSubmit_rejected s Hr).
      rewrite statusEffect_setDivisionModal.
      rewrite (statusEffect_setScore_settled _ s Hfix). reflexivity. }
    rewrite Hd, (handleDivisionSubmit_rejected s Hr). repeat split.
  - intros Ha Hb u Hu Hne.
    assert (Hp : parseInt (inputValue (modal s))
                 <> Int (coefficient a + coefficient b))
      by (rewrite Hu; congruence).
    pose proof (handleMergeSubmit_not_accepted s (rng m) a b Ha Hb Hp) as Hh.
    rewrite Hu in Hh. cbn [isNaN] in Hh.
    assert (Ho : mergeOutcome s = mergeRejected).
    { unfold mergeOutcome. rewrite Ha, Hb, Hu. cbn.
      apply Z.eqb_neq in Hne. rewrite Hne. reflexivity. }
    assert (Hd : dispatch MergeSubmit m
                 = mkMachine (setModal (withError "Incorrect sum. -2 Points!")
                                (setScore (fun x => x - 2) s))
                     (rng m) (S (timers m))).
    { unfold dispatch, handle. fold s. rewrite Hh, Ho. cbn [mstate rng timers].
      rewrite statusEffect_setModal.
      rewrite (statusEffect_setScore_settled _ s Hfix). reflexivity. }
    split; [exact Ho|]. rewrite Hh.
    split; [reflexivity|]. split; [reflexivity|].
    unfold run. cbn [fold_left]. rewrite Hd.
    split; [reflexivity|]. split; [reflexivity|].
    unfold dispatch, handle. cbn [mstate rng timers].
    rewrite statusEffect_terms.
    split; [reflexivity|].
    unfold mergeTimeout, closeModal.
    change (setTerms (fun prev => prev)
              (setModal (fun _ => closedModal)
                 (setModal (withError "Incorrect sum. -2 Points!")
                    (setScore (fun x => x - 2) s))))
      with (setModal (fun _ => closedModal) (setScore (fun x => x - 2) s)).
    rewrite statusEffect_setModal.
    rewrite (statusEffect_setScore_settled _ s Hfix). reflexivity.
  - intros Ha Hb Hn.
    assert (Hp : parseInt (inputValue (modal s))
                 <> Int (coefficient a + coefficient b))
      by (rewrite Hn; discriminate).
    pose proof (handleMergeSubmit_not_accepted s (rng m) a b Ha Hb Hp) as Hh.
    rewrite Hn in Hh. cbn [isNaN] in Hh.
    assert (Ho : mergeOutcome s = mergeInvalid).
    { unfold mergeOutcome. rewrite Ha, Hb, Hn. reflexivity. }
    assert (Hd : mstate (dispatch MergeSubmit m)
                 = setModal (withError "Please enter a valid number") s).
    { unfold dispatch, handle. fold s. rewrite Hh. cbn [mstate].
      rewrite statusEffect_setModal, Hfix. reflexivity. }
    rewrite Hd, Hh. repeat split. exact Ho.
Qed.

Lemma reachable_run (es : list Event) (m : Machine) :
  reachable m -> enabledAll es m -> reachable (run es m).
Proof.
  revert m. induction es as [|e es IH]; intros m Hm Hok; [exact Hm|].
  destruct Hok as [He Hok]. unfold run. cbn [fold_left].
  apply IH; [apply reachable_step; assumption | exact Hok].
Qed.

Lemma mergePendingMachine_state (v : string) :
  mstate (mergePendingMachine v) = mergePending v.
Proof.
  unfold mergePendingMachine, run. cbn [fold_left].
  unfold dispatch, handle. cbn [mstate].
  rewrite (proj1 exampleMachine_state). reflexivity.
Qed.

Lemma mergePendingMachine_reachable (v : string) :
  reachable (mergePendingMachine v).
Proof.
  apply reachable_run; [exact exampleMachine_reachable|].
  split; [|split; exact I].
  cbn [enabled]. rewrite (proj1 exampleMachine_state).
  right; right; right; left; reflexivity.
Qed.

Lemma rejected_submissions_witness :
  let m := mergePendingMachine "7" in
  let m' := mergePendingMachine "abc" in
  (terms (mstate (dispatch DivisionSubmit m)) = terms (mstate m)
   /\ score (mstate (dispatch DivisionSubmit m)) = score (mstate m) - 2)
  /\ (terms (mstate (run [MergeSubmit; MergeTimeout] m)) = terms (mstate m)
      /\ score (mstate (run [MergeSubmit; MergeTimeout] m)) = score (mstate m) - 2)
  /\ (terms (mstate (dispatch MergeSubmit m')) = terms (mstate m')
      /\ score (mstate (dispatch MergeSubmit m')) = score (mstate m')).
Proof.
  intros m m'.
  pose (a := mkTerm "777777777" (-9) false lhs).
  assert (Hs : mstate m = mergePending "7") by apply mergePendingMachine_state.
  assert (Hs' : mstate m' = mergePending "abc") by apply mergePendingMachine_state.
  destruct (rejected_submissions m a fiveTerm (mergePendingMachine_reachable "7"))
    as (Hd & Hm & _).
  destruct (rejected_submissions m' a fiveTerm (mergePendingMachine_reachable "abc"))
    as (_ & _ & Hn).
  assert (Hd' : divisionAccepted (mstate m) = false) by (rewrite Hs; reflexivity).
  destruct (Hd Hd') as (_ & _ & Hd1 & Hd2).
  assert (HA : termA (modal (mstate m)) = Some a) by (rewrite Hs; reflexivity).
  assert (HB : termB (modal (mstate m)) = Some fiveTerm)
    by (rewrite Hs; reflexivity).
  assert (HP : parseInt (inputValue (modal (mstate m))) = Int 7)
    by (rewrite Hs; reflexivity).
  destruct (Hm HA HB 7 HP ltac:(discriminate)) as (_ & _ & _ & _ & _ & Hm1 & Hm2).
  assert (HA' : termA (modal (mstate m')) = Some a) by (rewrite Hs'; reflexivity).
  assert (HB' : termB (modal (mstate m')) = Some fiveTerm)
    by (rewrite Hs'; reflexivity).
  assert (HP' : parseInt (inputValue (modal (mstate m'))) = NaN)
    by (rewrite Hs'; reflexivity).
  destruct (Hn HA' HB' HP') as (_ & _ & _ & _ & Hn1 & Hn2).
  exact (conj (conj Hd1 Hd2) (conj (conj Hm1 Hm2) (conj Hn1 Hn2))).
Defined.

(** ** The equation under the moves *)

Lemma residual_nil (x : Z) : residual x [] = 0.
Proof. reflexivity. Qed.

Lemma residual_cons (x : Z) (t : Term) (l : list Term) :
  residual x (t :: l) = contribution x t + residual x l.
Proof.
  unfold residual, contribution. rewrite !sideSum_cons. unfold onSide.
  destruct (side t); cbn [Side_eqb]; lia.
Qed.

Lemma residual_app (x : Z) (a b : list Term) :
  residual x (a ++ b) = residual x a + residual x b.
Proof. unfold residual. rewrite !sideSum_app. lia. Qed.

Lemma balancedAt_residual (x : Z) (ts : list Term) :
  balancedAt x ts <-> residual x ts = 0.
Proof. unfold balancedAt, residual. lia. Qed.

Lemma in_unique_id (t u : Term) (l : list Term) :
  NoDup (map id l) -> In t l -> In u l -> id t = id u -> t = u.
Proof.
  induction l as [|v l IH]; intros Hnd Ht Hu E; [contradiction|].
  cbn [map] in Hnd. inversion Hnd as [|? ? Hnot Hnd']; subst.
  destruct Ht as [Ht | Ht], Hu as [Hu | Hu]; subst.
  - reflexivity.
  - exfalso. apply Hnot. rewrite E. apply in_map. exact Hu.
  - exfalso. apply Hnot. rewrite <- E. apply in_map. exact Ht.
  - apply IH; assumption.
Qed.

Lemma residual_filter_one (x : Z) (b : Term) (l : list Term) :
  NoDup (map id l) -> In b l ->
  residual x l
  = residual x (filter (fun t => negb (String.eqb (id t) (id b))) l)
    + contribution x b.
Proof.
  induction l as [|u l IH]; intros Hnd Hin; [contradiction|].
  pose proof Hnd as Hnd0.
  cbn [map] in Hnd. inversion Hnd as [|? ? Hnot Hnd']; subst.
  cbn [filter]. destruct (String.eqb (id u) (id b)) eqn:E; cbn [negb].
  - apply String.eqb_eq in E.
    assert (u = b)
      by (apply (in_unique_id u b (u :: l) Hnd0);
          [left; reflexivity | exact Hin | exact E]).
    subst u. rewrite residual_cons, filter_all; [lia|].
    intros t Ht. apply negb_true_iff, String.eqb_neq. intro Heq.
    apply Hnot. rewrite <- Heq. apply in_map. exact Ht.
  - apply String.eqb_neq in E.
    destruct Hin as [Hin | Hin]; [subst; contradiction|].
    rewrite !residual_cons, (IH Hnd' Hin). lia.
Qed.

Lemma residual_filter_two (x : Z) (a b : Term) (l : list Term) :
  NoDup (map id l) -> In a l -> In b l -> id a <> id b ->
  residual x l
  = residual x (filter (keepOthers a b) l)
    + contribution x a + contribution x b.
Proof.
  intros Hnd Ha Hb Hab.
  induction l as [|u l IH]; [contradiction|].
  pose proof Hnd as Hnd0.
  cbn [map] in Hnd. inversion Hnd as [|? ? Hnot Hnd']; subst.
  cbn [filter]. unfold keepOthers at 1.
  destruct (String.eqb (id u) (id a)) eqn:Ea; cbn [negb andb].
  - apply String.eqb_eq in Ea.
    assert (u = a)
      by (apply (in_unique_id u a (u :: l) Hnd0);
          [left; reflexivity | exact Ha | exact Ea]).
    subst u. destruct Hb as [Hb | Hb]; [congruence|].
    rewrite (filter_ext_in (keepOthers a b)
               (fun t => negb (String.eqb (id t) (id b)))).
    + rewrite residual_cons, (residual_filter_one x b l Hnd' Hb). lia.
    + intros t Ht. unfold keepOthers.
      assert (E : String.eqb (id t) (id a) = false).
      { apply String.eqb_neq. intro Heq. apply Hnot. rewrite <- Heq.
        apply in_map. exact Ht. }
      rewrite E. reflexivity.
  - apply String.eqb_neq in Ea.
    destruct Ha as [Ha | Ha]; [subst; contradiction|].
    destruct (String.eqb (id u) (id b)) eqn:Eb; cbn [negb].
    + apply String.eqb_eq in Eb.
      assert (u = b)
        by (apply (in_unique_id u b (u :: l) Hnd0);
            [left; reflexivity | exact Hb | exact Eb]).
      subst u.
      rewrite (filter_ext_in (keepOthers a b)
                 (fun t => negb (String.eqb (id t) (id a)))).
      * rewrite residual_cons, (residual_filter_one x a l Hnd' Ha). lia.
      * intros t Ht. unfold keepOthers.
        assert (E : String.eqb (id t) (id b) = false).
        { apply String.eqb_neq. intro Heq. apply Hnot. rewrite <- Heq.
          apply in_map. exact Ht. }
        rewrite E. apply andb_true_r.
    + apply String.eqb_neq in Eb.
      destruct Hb as [Hb | Hb]; [subst; contradiction|].
      rewrite !residual_cons, (IH Hnd' Ha Hb). lia.
Qed.

(** Crossing a term does not change what it adds to the equation. *)
Lemma contribution_cross (x : Z) (t : Term) (newSide : Side) :
  newSide <> side t ->
  contribution x (mkTerm (id t) (coefficient t * -1) (hasVariable t) newSide)
  = contribution x t.
Proof.
  intro H. unfold contribution, termValue. cbn.
  destruct (side t), newSide, (hasVariable t); try contradiction; ring.
Qed.

Lemma residual_cross (x : Z) (term : Term) (newSide : Side) (l : list Term) :
  (forall t, In t l -> id t = id term -> side t <> newSide) ->
  residual x (map (crossTerm term newSide) l) = residual x l.
Proof.
  induction l as [|u l IH]; intro H; [reflexivity|].
  cbn [map]. rewrite !residual_cons, IH.
  - f_equal. unfold crossTerm.
    destruct (String.eqb (id u) (id term)) eqn:E; [|reflexivity].
    apply String.eqb_eq in E. apply contribution_cross.
    intro Hs. apply (H u (or_introl eq_refl) E). auto.
  - intros t Ht. apply H. right. exact Ht.
Qed.

(** ** The status derivation against the specification *)

(** What the effect does, by the status of the specification: it agrees
    with it on [won] and [divisionReady], and on [playing] it clears the
    pending division only when the number of terms is not 2. *)
Lemma statusEffect_cases (s : State) :
  gameWon s = false ->
  statusEffect s
  = match specStatus (terms s) with
    | won => winUpdate s
    | divisionReady k m => setCanDivide (Some (k, m)) s
    | playing =>
        if (List.length (terms s) =? 2)%nat then s else setCanDivide None s
    end.
Proof.
  destruct s as [ts w sc n mo dm cd]. cbn [gameWon terms]. intros ->.
  unfold statusEffect, winUpdate. cbn [gameWon terms].
  destruct ts as [|t [|u [|v l]]]; try reflexivity.
  destruct t as [i1 c1 h1 s1], u as [i2 c2 h2 s2].
  destruct s1, s2, h1, h2; cbn; try reflexivity;
    try (destruct (c1 =? 1); reflexivity);
    try (destruct (c2 =? 1); reflexivity).
Qed.

Lemma statusEffect_won (s : State) :
  gameWon s = false ->
  (gameWon (statusEffect s) = true <-> specStatus (terms s) = won)
  /\ (specStatus (terms s) = won ->
      score (statusEffect s) = score s + 10
      /\ solvedCount (statusEffect s) = solvedCount s + 1).
Proof.
  intro Hw. rewrite (statusEffect_cases s Hw).
  destruct (specStatus (terms s)) as [|k m|].
  - destruct (List.length (terms s) =? 2)%nat; cbn; rewrite Hw;
      split; try split; discriminate.
  - cbn. rewrite Hw. split; try split; discriminate.
  - cbn. split; [split; reflexivity|]. intros _. split; reflexivity.
Qed.

Lemma statusEffect_divisionReady (s : State) (k m : Z) :
  gameWon s = false ->
  specStatus (terms s) = divisionReady k m ->
  status (statusEffect s) = divisionReady k m.
Proof.
  intros Hw Hs. rewrite (statusEffect_cases s Hw), Hs.
  unfold status. cbn. rewrite Hw. reflexivity.
Qed.

Lemma statusEffect_playing (s : State) :
  gameWon s = false ->
  specStatus (terms s) = playing ->
  (List.length (terms s) <> 2)%nat \/ canDivide s = None ->
  status (statusEffect s) = playing.
Proof.
  intros Hw Hs Hor. rewrite (statusEffect_cases s Hw), Hs.
  destruct (List.length (terms s) =? 2)%nat eqn:E.
  - apply Nat.eqb_eq in E. destruct Hor as [Hl | Hc]; [contradiction|].
    unfold status. rewrite Hw, Hc. reflexivity.
  - unfold status. cbn. rewrite Hw. reflexivity.
Qed.

(** The missed case: two terms that do not have the shape leave a pending
    division in place. *)
Lemma statusEffect_stale (s : State) :
  gameWon s = false ->
  List.length (terms s) = 2%nat ->
  specStatus (terms s) = playing ->
  statusEffect s = s.
Proof.
  intros Hw Hl Hs. rewrite (statusEffect_cases s Hw), Hs, Hl. reflexivity.
Qed.

(** *** A play of the example level *)

Lemma exampleMachine_eq :
  exampleMachine
  = mkMachine exampleState (Rand.mkSrc (Rand.draws exampleSrc) 7) 0.
Proof. vm_compute. reflexivity. Qed.

Lemma wrongWinTrace_enabled : enabledAll wrongWinTrace exampleMachine.
Proof.
  rewrite exampleMachine_eq. vm_compute. repeat split; auto 10.
Qed.

Lemma run_app (a b : list Event) (m : Machine) :
  run (a ++ b) m = run b (run a m).
Proof. unfold run. apply fold_left_app. Qed.

Lemma enabledAll_app (a b : list Event) (m : Machine) :
  enabledAll (a ++ b) m <-> enabledAll a m /\ enabledAll b (run a m).
Proof.
  revert m. induction a as [|e a IH]; intro m; cbn [app enabledAll].
  - unfold run. cbn. tauto.
  - rewrite IH. unfold run. cbn [fold_left]. tauto.
Qed.

(** The states of the play, computed. *)
Lemma example_play :
  mstate (run mergeBothTrace exampleMachine) = divisionReadyState
  /\ mstate (run staleTrace exampleMachine)
     = mkState [ mkTerm "6" (-1) true rhs; mkTerm "4" 4 false rhs ]
         false 0 0 closedModal closedDivisionModal (Some (-1, -4))
  /\ mstate (run wrongDivisionTrace exampleMachine)
     = mkState [ mkTerm "6" 1 true rhs; mkTerm "4" 4 false rhs ]
         false 0 0 closedModal closedDivisionModal (Some (-1, -4))
  /\ mstate (run wrongWinTrace exampleMachine)
     = mkState [ mkTerm "6" 1 true rhs; mkTerm "4" (-4) false lhs ]
         true 10 1 closedModal closedDivisionModal None.
Proof.
  rewrite exampleMachine_eq. repeat split; vm_compute; reflexivity.
Qed.

Lemma staleTrace_reachable : reachable (run staleTrace exampleMachine).
Proof.
  apply reachable_run; [exact exampleMachine_reachable|].
  pose proof wrongWinTrace_enabled as H.
  unfold wrongWinTrace, wrongDivisionTrace in H.
  apply enabledAll_app in H. destruct H as [H _].
  apply enabledAll_app in H. destruct H as [H _]. exact H.
Qed.

(** C2, at the input where the code departs from it. On the example level
    the player reaches [-4 = -x], which is division-ready with divisor -1
    and dividend -4, and drags the [-4] across. The two terms left are both
    on the right, so the specification's status is [playing]; the effect
    takes none of its branches and the status stays
    [divisionReady (-1) (-4)]. The Divide button then accepts -1 and 4, the
    constant is dragged back, and the game is won with [x = -4] and 10
    points although the equation generated has the answer 4. *)
Theorem statusEffect_stale_divisionReady :
  let s := handleDragEnd minusFour rhs noHit divisionReadyState in
  let m := run staleTrace exampleMachine in
  reachable m
  /\ mstate m = statusEffect s
  /\ terms s = [ mkTerm "6" (-1) true rhs; mkTerm "4" 4 false rhs ]
  /\ gameWon s = false
  /\ specStatus (terms s) = playing
  /\ status (statusEffect s) = divisionReady (-1) (-4)
  /\ status (statusEffect s) <> specStatus (terms s)
  /\ answer (fst (drawNumbers 1 exampleSrc)) = 4
  /\ status (mstate (run wrongWinTrace exampleMachine)) = won
  /\ terms (mstate (run wrongWinTrace exampleMachine))
     = [ mkTerm "6" 1 true rhs; mkTerm "4" (-4) false lhs ]
  /\ residual 4 (terms (mstate (run wrongWinTrace exampleMachine))) = -8.
Proof.
  intros s m.
  destruct example_play as (_ & H2 & _ & H4).
  split; [exact staleTrace_reachable|].
  unfold m. rewrite H2, H4.
  split; [reflexivity|].
  split; [reflexivity|]. split; [reflexivity|]. split; [reflexivity|].
  split; [reflexivity|]. split; [discriminate|].
  split; [exact (proj2 exampleMachine_state)|].
  repeat split.
Qed.

(** ** Submissions and the live state *)

(** C9, as stated, fails. In the play of the example level the terms are
    [0 = -x + 4] when the division is submitted: the live terms are not
    division-ready, yet the submission of -1 and 4 is checked against the
    divisor and dividend the dialog copied, accepted, and applied to the
    live terms, which turns an equation that holds at [x = 4] into
    [0 = x + 4], which does not. The same happens when the Divide button is
    pressed before the drag. *)
Lemma stale_division_accepted :
  let m := run (staleTrace ++ divisionTyped) exampleMachine in
  let m' := dispatch DivisionSubmit m in
  let mb := run clickFirstTrace exampleMachine in
  reachable m
  /\ reachable mb
  /\ terms (mstate m) = [ mkTerm "6" (-1) true rhs; mkTerm "4" 4 false rhs ]
  /\ specStatus (terms (mstate m)) = playing
  /\ divisionAccepted (mstate m) = true
  /\ terms (mstate m') = [ mkTerm "6" 1 true rhs; mkTerm "4" 4 false rhs ]
  /\ balancedAt 4 (terms (mstate m))
  /\ ~ balancedAt 4 (terms (mstate m'))
  /\ specStatus (terms (mstate mb)) = playing
  /\ divisionAccepted (mstate mb) = true
  /\ terms (mstate (dispatch DivisionSubmit mb)) = terms (mstate m').
Proof.
  intros m m' mb.
  assert (Hm : reachable m).
  { apply reachable_run; [exact exampleMachine_reachable|].
    rewrite exampleMachine_eq. vm_compute. repeat split; auto 10. }
  assert (Hmb : reachable mb).
  { apply reachable_run; [exact exampleMachine_reachable|].
    rewrite exampleMachine_eq. vm_compute. repeat split; auto 10. }
  split; [exact Hm|]. split; [exact Hmb|]. clear Hm Hmb.
  unfold m', mb, m. rewrite exampleMachine_eq.
  split; [vm_compute; reflexivity|]. split; [vm_compute; reflexivity|].
  split; [vm_compute; reflexivity|]. split; [vm_compute; reflexivity|].
  split; [vm_compute; reflexivity|].
  split; [vm_compute; discriminate|].
  split; [vm_compute; reflexivity|]. split; vm_compute; reflexivity.
Qed.

Lemma specStatus_divisionReady_inv (ts : list Term) (k m : Z) :
  specStatus ts = divisionReady k m ->
  exists v c,
    (ts = [v; c] \/ ts = [c; v])
    /\ side v <> side c
    /\ hasVariable v = true /\ hasVariable c = false
    /\ coefficient v = k /\ coefficient c = m /\ k <> 1.
Proof.
  destruct ts as [|t [|u [|w l]]]; try discriminate.
  unfold specStatus.
  destruct (Side_eqb (side t) (side u)) eqn:Es; [discriminate|].
  assert (Hs : side t <> side u).
  { intro H. rewrite H, Side_eqb_refl in Es. discriminate. }
  destruct (hasVariable t) eqn:Ht, (hasVariable u) eqn:Hu;
    cbn [andb negb]; try discriminate.
  - destruct (coefficient t =? 1) eqn:E; [discriminate|].
    intro H. injection H as <- <-. apply Z.eqb_neq in E.
    exists t, u. auto 10.
  - destruct (coefficient u =? 1) eqn:E; [discriminate|].
    intro H. injection H as <- <-. apply Z.eqb_neq in E.
    exists u, t. auto 10.
Qed.

Lemma division_fresh_legal (s0 : State) (k m : Z) (v1 v2 : string) :
  specStatus (terms s0) = divisionReady k m ->
  canDivide s0 = Some (k, m) ->
  divisionAccepted (divisionPending v1 v2 s0) = true ->
  let s' := handleDivisionSubmit (divisionPending v1 v2 s0) in
  specStatus (terms s') = won
  /\ forall x, balancedAt x (terms s0) <-> balancedAt x (terms s').
Proof.
  intros Hspec Hcd Hacc s'.
  pose proof (divisionPending_submit_accepted s0 k m v1 v2 Hcd Hacc) as Hts.
  fold s' in Hts.
  apply (divisionPending_accepted s0 k m v1 v2 Hcd) in Hacc.
  destruct Hacc as (_ & r & Hr & Hk & _ & Hrk).
  rewrite Hr in Hts. cbn [valueOf] in Hts. rewrite Hts.
  apply specStatus_divisionReady_inv in Hspec.
  destruct Hspec as (v & c & Hshape & Hsd & Hv & Hc & Hkv & Hmc & Hk1).
  destruct v as [iv cv hv sv], c as [ic cc hc sc]. cbn in *. subst.
  destruct Hshape as [-> | ->]; cbn [map divided hasVariable id side];
    unfold specStatus, balancedAt, sideSum, termValue;
    destruct sv, sc; try contradiction; cbn -[Z.mul]; split;
    try reflexivity; intro x; rewrite Z.mul_1_l; split; intro H; nia.
Qed.

Lemma merge_fresh_legal (s0 : State) (term : Term) (newSide : Side)
    (hit : string -> bool) (o : Term) (v : string) (r : Rand.Src) :
  gameWon s0 = false ->
  NoDup (map id (terms s0)) ->
  In term (terms s0) ->
  find (mergeCandidate term newSide hit) (terms s0) = Some o ->
  let s := changeMergeInput v (handleDragEnd term newSide hit s0) in
  parseInt v = Int (effectiveCoefficient term newSide + coefficient o) ->
  forall x,
    residual x (terms (fst (handleMergeSubmit s r))) = residual x (terms s0).
Proof.
  intros Hw Hnd Hin Hfind s Hp x.
  destruct (find_mergeCandidate term newSide hit (terms s0) o Hfind)
    as (Hino & Hido & Hso & Hho).
  pose proof (handleDragEnd_candidate term newSide hit s0 o Hw Hfind) as Hh.
  set (a := mkTerm (id term) (effectiveCoefficient term newSide)
              (hasVariable term) newSide) in *.
  assert (Hms : modal s = mkModal true (Some a) (Some o) v None).
  { unfold s. rewrite Hh. reflexivity. }
  assert (Hterms : terms s = terms s0).
  { unfold s. rewrite Hh. reflexivity. }
  assert (HA : termA (modal s) = Some a) by (rewrite Hms; reflexivity).
  assert (HB : termB (modal s) = Some o) by (rewrite Hms; reflexivity).
  assert (HP : parseInt (inputValue (modal s))
               = Int (coefficient a + coefficient o))
    by (rewrite Hms; exact Hp).
  rewrite (handleMergeSubmit_accepted s r a o HA HB HP).
  cbn [closeModal setModal setTerms terms]. rewrite Hterms, mergedTerms_eq.
  rewrite residual_app.
  change (keepOthers a o) with (keepOthers term o).
  rewrite (residual_filter_two x term o (terms s0) Hnd Hin Hino
             (fun E => Hido (eq_sym E))).
  rewrite residual_cons, residual_nil.
  assert (Hc : contribution x (mergeResult a o (fst (generateId r)))
               = contribution x term + contribution x o); [|lia].
  unfold mergeResult, contribution, termValue, a, effectiveCoefficient.
  cbn [side coefficient hasVariable]. rewrite Hso, Hho.
  generalize (coefficient term) (coefficient o). intros ct co.
  destruct (side term), newSide; cbn [Side_eqb];
    destruct (hasVariable term);
    match goal with |- context [?e =? 0] => destruct (e =? 0) eqn:E0 end;
    try (apply Z.eqb_eq in E0); nia.
Qed.

(** C9, amended. A submitted merge or division value is validated against
    the values the dialog cached when the interaction began (the two pending
    terms; the divisor and dividend copied by the Divide button), and not
    against the live terms or status: two states with the same dialog give
    the same verdict and apply the same rewrite to whatever their terms
    are. The rewrite is legal for the live state when the cache agrees with
    it: a division submitted right after Divide was pressed on terms that
    have the division-ready shape leaves a won shape with the same
    solutions, and a merge submitted right after the drag on terms with
    distinct ids leaves left-sum minus right-sum unchanged at every [x]. *)
Theorem submissions_use_cached_values :
  (forall s1 s2, divisionModal s1 = divisionModal s2 ->
     divisionAccepted s1 = divisionAccepted s2
     /\ (divisionAccepted s1 = true ->
         exists q,
           terms (handleDivisionSubmit s1) = map (divided q) (terms s1)
           /\ terms (handleDivisionSubmit s2) = map (divided q) (terms s2)))
  /\ (forall s1 s2 r, modal s1 = modal s2 ->
        mergeOutcome s1 = mergeOutcome s2
        /\ (mergeOutcome s1 = mergeAccepted ->
            exists a b n,
              terms (fst (handleMergeSubmit s1 r)) = mergedTerms a b n (terms s1)
              /\ terms (fst (handleMergeSubmit s2 r))
                 = mergedTerms a b n (terms s2)))
  /\ (forall s0 k m v1 v2,
        specStatus (terms s0) = divisionReady k m ->
        canDivide s0 = Some (k, m) ->
        divisionAccepted (divisionPending v1 v2 s0) = true ->
        specStatus (terms (handleDivisionSubmit (divisionPending v1 v2 s0)))
        = won
        /\ forall x,
             balancedAt x (terms s0)
             <-> balancedAt x
                   (terms (handleDivisionSubmit (divisionPending v1 v2 s0))))
  /\ (forall s0 term newSide hit o v r,
        gameWon s0 = false ->
        NoDup (map id (terms s0)) ->
        In term (terms s0) ->
        find (mergeCandidate term newSide hit) (terms s0) = Some o ->
        parseInt v = Int (effectiveCoefficient term newSide + coefficient o) ->
        forall x,
          residual x
            (terms (fst (handleMergeSubmit
                           (changeMergeInput v
                              (handleDragEnd term newSide hit s0)) r)))
          = residual x (terms s0)).
Proof.
  split; [|split; [|split]].
  - intros s1 s2 E.
    assert (Ha : divisionAccepted s1 = divisionAccepted s2)
      by (unfold divisionAccepted; rewrite E; reflexivity).
    split; [exact Ha|]. intro H1.
    exists (valueOf (parseInt (resultInput (divisionModal s1)))).
    rewrite (handleDivisionSubmit_accepted s1 H1).
    rewrite Ha in H1. rewrite (handleDivisionSubmit_accepted s2 H1), E.
    split; reflexivity.
  - intros s1 s2 r E.
    assert (Ho : mergeOutcome s1 = mergeOutcome s2)
      by (unfold mergeOutcome; rewrite E; reflexivity).
    split; [exact Ho|]. intro H1.
    destruct (termA (modal s1)) as [a|] eqn:Ea;
      [|unfold mergeOutcome in H1; rewrite Ea in H1; discriminate].
    destruct (termB (modal s1)) as [b|] eqn:Eb;
      [|unfold mergeOutcome in H1; rewrite Ea, Eb in H1; discriminate].
    pose proof (proj1 (mergeOutcome_accepted s1 a b Ea Eb) H1) as Hp.
    exists a, b, (mergeResult a b (fst (generateId r))).
    rewrite (handleMergeSubmit_accepted s1 r a b Ea Eb Hp).
    rewrite E in Ea, Eb, Hp.
    rewrite (handleMergeSubmit_accepted s2 r a b Ea Eb Hp).
    split; reflexivity.
  - intros s0 k m v1 v2. apply division_fresh_legal.
  - intros s0 term newSide hit o v r Hw Hnd Hin Hf Hp.
    exact (merge_fresh_legal s0 term newSide hit o v r Hw Hnd Hin Hf Hp).
Qed.

Lemma exampleState_NoDup : NoDup (map id (terms exampleState)).
Proof. cbn. repeat constructor; cbn; intuition discriminate. Qed.

Lemma submissions_use_cached_values_witness :
  (specStatus
     (terms (handleDivisionSubmit (divisionPending "-1" "4" divisionReadyState)))
   = won
   /\ (balancedAt 4 (terms divisionReadyState)
       <-> balancedAt 4
             (terms (handleDivisionSubmit
                       (divisionPending "-1" "4" divisionReadyState)))))
  /\ residual 4 (terms (fst (handleMergeSubmit (mergePending "-4") exampleSrc)))
     = residual 4 (terms exampleState).
Proof.
  destruct submissions_use_cached_values as (_ & _ & Hd & Hm).
  split.
  - destruct (Hd divisionReadyState (-1) (-4) "-1"%string "4"%string
                eq_refl eq_refl eq_refl) as [H1 H2].
    exact (conj H1 (H2 4)).
  - refine (Hm exampleState nineTerm lhs (hitOn "9") fiveTerm "-4"%string
              exampleSrc eq_refl exampleState_NoDup _ eq_refl eq_refl 4).
    right; right; right; left; reflexivity.
Defined.

(** ** Zero coefficients *)

Lemma zeroMachine_eq :
  mount zeroSrc
  = mkMachine
      (mkState [ mkTerm "i" 3 true lhs; mkTerm "c" 2 true rhs;
                 mkTerm "9" 5 false lhs; mkTerm "777777777" 5 false rhs ]
         false 0 0 closedModal closedDivisionModal None)
      (Rand.mkSrc (Rand.draws zeroSrc) 7) 0.
Proof. vm_compute. reflexivity. Qed.

(** C1, as stated, fails: on the level [3x + 5 = 2x + 5] the player drops
    the right 5 on the left 5 and submits the sum 0; the merge appends the
    constant term 0, which is in the live terms after the mutation (and
    after the status effect). *)
Lemma merge_leaves_zero_term :
  let m := run zeroTrace (mount zeroSrc) in
  reachable m
  /\ terms (mstate m)
     = [ mkTerm "i" 3 true lhs; mkTerm "c" 2 true rhs; mkTerm "6" 0 false lhs ]
  /\ ~ noZero (terms (mstate m)).
Proof.
  intro m.
  assert (Hm : reachable m).
  { apply reachable_run.
    - apply reachable_mount. apply replay_valid; reflexivity.
    - rewrite zeroMachine_eq. vm_compute. repeat split; auto 10. }
  split; [exact Hm|]. clear Hm. unfold m. rewrite zeroMachine_eq.
  assert (E : terms (mstate (run zeroTrace
                (mkMachine
                   (mkState [ mkTerm "i" 3 true lhs; mkTerm "c" 2 true rhs;
                              mkTerm "9" 5 false lhs;
                              mkTerm "777777777" 5 false rhs ]
                      false 0 0 closedModal closedDivisionModal None)
                   (Rand.mkSrc (Rand.draws zeroSrc) 7) 0)))
              = [ mkTerm "i" 3 true lhs; mkTerm "c" 2 true rhs;
                  mkTerm "6" 0 false lhs ])
    by (vm_compute; reflexivity).
  rewrite E. split; [reflexivity|].
  intro H. apply noZerob_spec in H. discriminate.
Qed.

Lemma noZero_map_cross (term : Term) (newSide : Side) (ts : list Term) :
  noZero ts -> noZero (map (crossTerm term newSide) ts).
Proof.
  unfold noZero. intro H. apply Forall_map.
  eapply Forall_impl; [|exact H]. intros t Ht. cbv beta in Ht.
  unfold crossTerm.
  destruct (String.eqb (id t) (id term)); cbn [coefficient]; [lia | exact Ht].
Qed.

Lemma handleDragEnd_noZero (term : Term) (newSide : Side)
    (hit : string -> bool) (s : State) :
  noZero (terms s) -> noZero (terms (handleDragEnd term newSide hit s)).
Proof.
  intro H. unfold handleDragEnd.
  destruct (gameWon s); [exact H|].
  destruct (find _ _); [exact H|].
  destruct (negb _); [|exact H].
  apply noZero_map_cross. exact H.
Qed.

Lemma startNewGame_terms (s : State) (r : Rand.Src) :
  terms (fst (startNewGame s r)) = fst (generateLevel (difficulty s) r).
Proof.
  unfold startNewGame, Rand.bind, Rand.ret.
  destruct (generateLevel (difficulty s) r). reflexivity.
Qed.

Lemma noZero_noZeroVar (ts : list Term) : noZero ts -> noZeroVar ts.
Proof.
  unfold noZero, noZeroVar. intro H.
  eapply Forall_impl; [|exact H]. intros t Ht _. exact Ht.
Qed.

Lemma handleMergeSubmit_terms (s : State) (r : Rand.Src) :
  terms (fst (handleMergeSubmit s r)) = terms s
  \/ exists a b,
       terms (fst (handleMergeSubmit s r))
       = mergedTerms a b (mergeResult a b (fst (generateId r))) (terms s).
Proof.
  destruct (termA (modal s)) as [a|] eqn:Ea;
    [|left; unfold handleMergeSubmit; rewrite Ea; reflexivity].
  destruct (termB (modal s)) as [b|] eqn:Eb;
    [|left; unfold handleMergeSubmit; rewrite Ea, Eb; reflexivity].
  destruct (parseInt (inputValue (modal s))) as [|u] eqn:Ep.
  - left. unfold handleMergeSubmit. rewrite Ea, Eb, Ep. reflexivity.
  - destruct (Z.eq_dec u (coefficient a + coefficient b)) as [-> | Hne].
    + right. exists a, b.
      rewrite (handleMergeSubmit_accepted s r a b Ea Eb Ep). reflexivity.
    + left.
      assert (Hp : parseInt (inputValue (modal s))
                   <> Int (coefficient a + coefficient b))
        by (rewrite Ep; congruence).
      rewrite (handleMergeSubmit_not_accepted s r a b Ea Eb Hp), Ep.
      reflexivity.
Qed.

Lemma handleDivisionSubmit_terms (s : State) :
  terms (handleDivisionSubmit s) = terms s
  \/ exists q, terms (handleDivisionSubmit s) = map (divided q) (terms s).
Proof.
  destruct (divisionAccepted s) eqn:E.
  - right. eexists. rewrite (handleDivisionSubmit_accepted s E). reflexivity.
  - left. rewrite (handleDivisionSubmit_rejected s E). reflexivity.
Qed.

(** In every state the component can reach, a term with coefficient 0 is a
    constant: no event makes the coefficient of a variable term 0. *)
Lemma reachable_noZeroVar (m : Machine) :
  reachable m -> noZeroVar (terms (mstate m)).
Proof.
  induction 1 as [r Hr | m e Hm IH He].
  - apply noZero_noZeroVar. unfold mount.
    pose proof (generateLevel_noZero 1 r) as H.
    destruct (generateLevel 1 r) as [ts r']. cbn [fst] in H.
    cbn [mstate]. rewrite statusEffect_terms. exact H.
  - unfold dispatch. cbn [mstate]. rewrite statusEffect_terms.
    destruct e as [term newSide hit | v | | | | | v | v | | |];
      cbn [handle mstate]; try exact IH.
    + (* DragEnd *)
      unfold handleDragEnd. destruct (gameWon (mstate m)); [exact IH|].
      destruct (find _ _); [exact IH|].
      destruct (negb _); [|exact IH].
      cbn [setTerms terms]. unfold noZeroVar in *. apply Forall_map.
      eapply Forall_impl; [|exact IH]. intros t Ht. cbv beta in Ht.
      unfold crossTerm. destruct (String.eqb _ _); [|exact Ht].
      cbn [coefficient hasVariable]. intro Hv. specialize (Ht Hv). lia.
    + (* MergeSubmit *)
      pose proof (handleMergeSubmit_terms (mstate m) (rng m)) as Ht.
      destruct (handleMergeSubmit (mstate m) (rng m)) as [s' r'].
      cbn [fst mstate] in *.
      destruct Ht as [-> | (a & b & ->)]; [exact IH|].
      rewrite mergedTerms_eq. unfold noZeroVar in *.
      apply Forall_app. split.
      * rewrite Forall_forall in *. intros t Ht.
        apply filter_In in Ht. apply IH. tauto.
      * constructor; [|constructor]. unfold mergeResult.
        cbn [coefficient hasVariable].
        destruct (coefficient a + coefficient b =? 0) eqn:E;
          [discriminate|]. intros _. apply Z.eqb_neq. exact E.
    + (* MergeTimeout *)
      destruct (timers m); exact IH.
    + (* DivisionClick *)
      unfold handleDivisionClick.
      destruct (canDivide (mstate m)) as [[d q]|]; exact IH.
    + (* DivisionSubmit *)
      destruct (handleDivisionSubmit_terms (mstate m)) as [-> | (q & ->)];
        [exact IH|].
      unfold noZeroVar. apply Forall_map, Forall_forall. intros t _.
      unfold divided. cbn [coefficient hasVariable].
      destruct (hasVariable t); [discriminate | discriminate].
    + (* NewGame *)
      pose proof (startNewGame_terms (mstate m) (rng m)) as Ht.
      destruct (startNewGame (mstate m) (rng m)) as [s' r'].
      cbn [fst mstate] in *. rewrite Ht.
      apply noZero_noZeroVar, generateLevel_noZero.
Qed.

(** C1, amended. In every reachable state no variable term has the
    coefficient 0. The level generator returns no term with coefficient 0
    (at mount and at every new game), and a cross, a rejected submission, an
    accepted merge whose sum is not 0 and an accepted division whose
    dividend is not 0 leave the terms free of zero coefficients when they
    were; an accepted merge whose sum is 0 appends a constant term with
    coefficient 0, which stays in the terms, and an accepted division with
    dividend 0 gives every constant term the coefficient 0. *)
Theorem zero_coefficient_terms :
  (forall m, reachable m -> noZeroVar (terms (mstate m)))
  /\ (forall dif r, noZero (fst (generateLevel dif r)))
  /\ (forall r, noZero (terms (mstate (mount r))))
  /\ (forall s r, noZero (terms (fst (startNewGame s r))))
  /\ (forall term newSide hit s,
        noZero (terms s) -> noZero (terms (handleDragEnd term newSide hit s)))
  /\ (forall s r a b,
        termA (modal s) = Some a -> termB (modal s) = Some b ->
        noZero (terms s) ->
        let sum := coefficient a + coefficient b in
        let s' := fst (handleMergeSubmit s r) in
        (parseInt (inputValue (modal s)) <> Int sum -> noZero (terms s'))
        /\ (parseInt (inputValue (modal s)) = Int sum -> sum <> 0 ->
            noZero (terms s'))
        /\ (parseInt (inputValue (modal s)) = Int sum -> sum = 0 ->
            In (mkTerm (fst (generateId r)) 0 false (side b)) (terms s')
            /\ ~ noZero (terms s')))
  /\ (forall s,
        noZero (terms s) ->
        let s' := handleDivisionSubmit s in
        (divisionAccepted s = false -> noZero (terms s'))
        /\ (divisionAccepted s = true -> dividend (divisionModal s) <> 0 ->
            noZero (terms s'))
        /\ (divisionAccepted s = true -> dividend (divisionModal s) = 0 ->
            forall t, In t (terms s') -> hasVariable t = false ->
                      coefficient t = 0)).
Proof.
  split; [exact reachable_noZeroVar|].
  split; [exact generateLevel_noZero|]. split.
  { intro r. unfold mount.
    pose proof (generateLevel_noZero 1 r) as H.
    destruct (generateLevel 1 r) as [ts r']. cbn [fst] in H.
    cbn [mstate]. rewrite statusEffect_terms. exact H. }
  split.
  { intros s r. rewrite startNewGame_terms. apply generateLevel_noZero. }
  split; [exact handleDragEnd_noZero|]. split.
  - intros s r a b Ha Hb Hnz sum s'. split; [|split].
    + intro Hp. unfold s'.
      rewrite (handleMergeSubmit_not_accepted s r a b Ha Hb Hp). cbn [fst].
      destruct (isNaN _); exact Hnz.
    + intros Hp Hs. unfold s'.
      rewrite (handleMergeSubmit_accepted s r a b Ha Hb Hp).
      cbn [closeModal setModal setTerms terms]. rewrite mergedTerms_eq.
      apply noZero_app. split.
      * unfold noZero in *. rewrite Forall_forall in *.
        intros t Ht. apply filter_In in Ht. apply Hnz. tauto.
      * constructor; [exact Hs | constructor].
    + intros Hp Hs. unfold s'.
      rewrite (handleMergeSubmit_accepted s r a b Ha Hb Hp).
      cbn [closeModal setModal setTerms terms]. rewrite mergedTerms_eq.
      assert (Hin : In (mkTerm (fst (generateId r)) 0 false (side b))
                      (filter (keepOthers a b) (terms s)
                       ++ [mergeResult a b (fst (generateId r))])).
      { apply in_or_app. right. left. unfold mergeResult. fold sum.
        rewrite Hs. reflexivity. }
      split; [exact Hin|].
      intro Hall. unfold noZero in Hall. rewrite Forall_forall in Hall.
      apply (Hall _ Hin). reflexivity.
  - intros s Hnz s'. split; [|split].
    + intro Hr. unfold s'. rewrite (handleDivisionSubmit_rejected s Hr).
      exact Hnz.
    + intros Ha Hd. unfold s'. rewrite (handleDivisionSubmit_accepted s Ha).
      cbn [closeDivisionModal setDivisionModal setTerms terms].
      unfold divisionAccepted in Ha.
      apply andb_true_iff in Ha. destruct Ha as [_ Ha].
      apply strictEqQuot_true in Ha. destruct Ha as (q & Hq & Hk & Hx).
      apply (exact_quotient q _ _ Hk) in Hx.
      rewrite Hq. cbn [valueOf].
      unfold noZero. apply Forall_map, Forall_forall. intros t _.
      unfold divided. cbn [coefficient]. destruct (hasVariable t); nia.
    + intros Ha Hd t Ht Hc. unfold s' in Ht.
      rewrite (handleDivisionSubmit_accepted s Ha) in Ht.
      cbn [closeDivisionModal setDivisionModal setTerms terms] in Ht.
      unfold divisionAccepted in Ha.
      apply andb_true_iff in Ha. destruct Ha as [_ Ha].
      apply strictEqQuot_true in Ha. destruct Ha as (q & Hq & Hk & Hx).
      apply (exact_quotient q _ _ Hk) in Hx.
      rewrite Hq in Ht. cbn [valueOf] in Ht.
      apply in_map_iff in Ht. destruct Ht as (u & <- & _).
      unfold divided in *. cbn [coefficient hasVariable] in *.
      rewrite Hc. nia.
Qed.

Lemma zero_coefficient_terms_witness :
  noZeroVar (terms (mstate exampleMachine))
  /\ noZero (terms (handleDragEnd fiveTerm rhs noHit exampleState))
  /\ noZero (terms (fst (handleMergeSubmit (mergePending "-4") exampleSrc)))
  /\ noZero (terms (handleDivisionSubmit
                      (divisionPending "-1" "4" divisionReadyState))).
Proof.
  destruct zero_coefficient_terms as (Hr & _ & _ & _ & Hc & Hm & Hd).
  split; [exact (Hr exampleMachine exampleMachine_reachable)|].
  assert (Hz : noZero (terms exampleState))
    by (apply noZerob_spec; reflexivity).
  assert (Hz' : noZero (terms divisionReadyState))
    by (apply noZerob_spec; reflexivity).
  split; [exact (Hc fiveTerm rhs noHit exampleState Hz)|]. split.
  - destruct (Hm (mergePending "-4") exampleSrc
                (mkTerm "777777777" (-9) false lhs) fiveTerm
                eq_refl eq_refl Hz) as (_ & H & _).
    exact (H eq_refl ltac:(discriminate)).
  - destruct (Hd (divisionPending "-1" "4" divisionReadyState) Hz')
      as (_ & H & _).
    exact (H eq_refl ltac:(discriminate)).
Defined.

(** ** The second listing *)

(** In the second listing a merge input that is not a number takes the
    branch of a wrong sum: it costs 2 points, as a rejected division does
    in both listings. *)
Lemma compact_merge_invalid_penalty (s : State) (r : Rand.Src) (a b : Term) :
  termA (modal s) = Some a -> termB (modal s) = Some b ->
  parseInt (inputValue (modal s)) = NaN ->
  terms (fst (Compact.handleMergeSubmit s r)) = terms s
  /\ score (fst (Compact.handleMergeSubmit s r)) = score s - 2.
Proof.
  intros Ha Hb Hn. unfold Compact.handleMergeSubmit. rewrite Ha, Hb, Hn.
  split; reflexivity.
Qed.

(** On an input that is a number the two listings of the merge handler
    agree. *)
Lemma compact_merge_same (s : State) (r : Rand.Src) (a b : Term) :
  termA (modal s) = Some a -> termB (modal s) = Some b ->
  parseInt (inputValue (modal s)) <> NaN ->
  Compact.handleMergeSubmit s r = handleMergeSubmit s r.
Proof.
  intros Ha Hb Hn. unfold Compact.handleMergeSubmit, handleMergeSubmit.
  rewrite Ha, Hb.
  destruct (parseInt (inputValue (modal s))); [contradiction|reflexivity].
Qed.

(** The two listings of the division handler accept the same submissions
    and leave the same terms and score; only the message differs. *)
Lemma compact_division_same (s : State) :
  terms (Compact.handleDivisionSubmit s) = terms (handleDivisionSubmit s)
  /\ score (Compact.handleDivisionSubmit s) = score (handleDivisionSubmit s)
  /\ (divisionAccepted s = false ->
      dError (divisionModal (Compact.handleDivisionSubmit s))
      = Some "Incorrect. (-2 pts)"%string).
Proof.
  unfold Compact.handleDivisionSubmit, handleDivisionSubmit, divisionAccepted.
  destruct (strictEqZ _ _ && strictEqQuot _ _).
  - repeat split. discriminate.
  - repeat split.
Qed.

(** * Further properties of the code *)

Example getEquationString_ex :
  getEquationString (terms exampleState) = "3x + 5 = 2x + 9"%string
  /\ getEquationString [ mkTerm "a" 7 false lhs; mkTerm "b" (-1) true lhs ]
     = "-x + 7 = 0"%string.
Proof. split; reflexivity. Qed.


(** ** More on the level generator *)

Lemma groupSum_app (hv : bool) (sd : Side) (a b : list Term) :
  groupSum hv sd (a ++ b) = groupSum hv sd a + groupSum hv sd b.
Proof.
  unfold groupSum. rewrite filter_app.
  induction (filter (inGroup hv sd) a) as [|t l IH]; cbn [app fold_right];
    [reflexivity | lia].
Qed.

Lemma groupSum_cons (hv : bool) (sd : Side) (t : Term) (l : list Term) :
  groupSum hv sd (t :: l)
  = (if inGroup hv sd t then coefficient t else 0) + groupSum hv sd l.
Proof.
  unfold groupSum. cbn [filter]. destruct (inGroup hv sd t); reflexivity.
Qed.

Lemma toTerm_groupSum (hv : bool) (sd : Side) (t : RawTerm) (r : Rand.Src) :
  groupSum hv sd (fst (toTerm t r)) = rawGroupSum hv sd [t].
Proof.
  rewrite toTerm_fst. unfold rawGroupSum. cbn [map].
  destruct (coeff t =? 0) eqn:E; cbn [negb].
  - apply Z.eqb_eq in E. rewrite groupSum_cons.
    unfold asTerm at 2. cbn [coefficient]. rewrite E.
    destruct (inGroup hv sd (asTerm t)); reflexivity.
  - rewrite !groupSum_cons. reflexivity.
Qed.

Lemma splitTerm_groupSum (hv : bool) (sd : Side) (t : RawTerm) (r : Rand.Src) :
  rawGroupSum hv sd (fst (splitTerm t r)) = rawGroupSum hv sd [t].
Proof.
  unfold splitTerm, Rand.bind, Rand.random.
  destruct (Qgtb _ _ || _); [reflexivity|].
  unfold rawGroupSum, Rand.ret. cbn [fst map]. rewrite !groupSum_cons.
  unfold inGroup, asTerm. cbn [hasVariable side coefficient coeff hasVar rside].
  destruct (Bool.eqb (hasVar t) hv && Side_eqb (rside t) sd);
    unfold groupSum; cbn; lia.
Qed.

Lemma rawGroupSum_app (hv : bool) (sd : Side) (a b : list RawTerm) :
  rawGroupSum hv sd (a ++ b) = rawGroupSum hv sd a + rawGroupSum hv sd b.
Proof. unfold rawGroupSum. rewrite map_app. apply groupSum_app. Qed.

Lemma flatMapM_toTerm_groupSum (hv : bool) (sd : Side) (rs : list RawTerm)
    (r : Rand.Src) :
  groupSum hv sd (fst (Rand.flatMapM toTerm rs r)) = rawGroupSum hv sd rs.
Proof.
  revert r. induction rs as [|t rs IH]; intro r; [reflexivity|].
  rewrite flatMapM_cons_fst, groupSum_app, IH, toTerm_groupSum.
  symmetry. apply (rawGroupSum_app hv sd [t] rs).
Qed.

Lemma flatMapM_splitTerm_groupSum (hv : bool) (sd : Side) (rs : list RawTerm)
    (r : Rand.Src) :
  rawGroupSum hv sd (fst (Rand.flatMapM splitTerm rs r)) = rawGroupSum hv sd rs.
Proof.
  revert r. induction rs as [|t rs IH]; intro r; [reflexivity|].
  rewrite flatMapM_cons_fst, rawGroupSum_app, IH, splitTerm_groupSum.
  symmetry. apply (rawGroupSum_app hv sd [t] rs).
Qed.

Lemma generateLevel_groupSum (hv : bool) (sd : Side) (dif : Q) (r : Rand.Src) :
  groupSum hv sd (fst (generateLevel dif r))
  = rawGroupSum hv sd (rawTermsOf (fst (drawNumbers dif r))).
Proof.
  rewrite generateLevel_fst, generateLevelWith_stages. cbn [fst snd].
  rewrite flatMapM_toTerm_groupSum, splitStage_fst.
  destruct (Qgtb dif (14 # 10)); [|reflexivity].
  apply flatMapM_splitTerm_groupSum.
Qed.

(** X1. Whatever the difficulty and the draws, the level keeps the four
    numbers it was built from: the coefficients of the variable terms on the
    left add up to [A], those on the right to [B = A - finalCoeff], the
    constants on the left to [C1] and those on the right to
    [C2 = C1 + finalCoeff * answer]. Splitting moves no term to another
    side or kind, and dropping the zero terms loses nothing. *)
Theorem generateLevel_groups (dif : Q) (r : Rand.Src) :
  let d := fst (drawNumbers dif r) in
  let ts := fst (generateLevel dif r) in
  groupSum true lhs ts = coeffA d
  /\ groupSum true rhs ts = coeffA d - finalCoeff d
  /\ groupSum false lhs ts = constC1 d
  /\ groupSum false rhs ts = constC1 d + finalCoeff d * answer d.
Proof.
  intros d ts. unfold ts. rewrite !generateLevel_groupSum. fold d.
  unfold rawTermsOf, rawGroupSum, groupSum. cbn.
  repeat split; lia.
Qed.

Lemma floor_draw_below (q : Q) (n : Z) :
  (q < 1)%Q -> 0 < n -> Math_floor (q * inject_Z n) < n.
Proof.
  intros Hq Hn. unfold Math_floor.
  rewrite Zlt_Qlt. eapply Qle_lt_trans; [apply Qfloor_le|].
  rewrite <- (Qmult_1_l (inject_Z n)) at 2.
  apply Qmult_lt_compat_r; [|exact Hq].
  change 0%Q with (inject_Z 0). rewrite <- Zlt_Qlt. exact Hn.
Qed.

Lemma floor_draw_range (q : Q) (n : Z) :
  (0 <= q /\ q < 1)%Q -> 0 < n ->
  0 <= Math_floor (q * inject_Z n) < n.
Proof.
  intros [H0 H1] Hn. split.
  - apply floor_draw_nonneg; [exact H0 | lia].
  - apply floor_draw_below; assumption.
Qed.

Lemma scale_nonneg (dif : Q) (val : Z) :
  (0 <= dif)%Q -> 0 <= val -> 0 <= scale dif val.
Proof.
  intros Hd Hv. unfold scale, Math_round.
  change 0 with (Qfloor 0). apply Qfloor_resp_le.
  apply Qle_trans with (inject_Z val * dif)%Q.
  - apply Qmult_le_0_compat; [|exact Hd].
    change 0%Q with (inject_Z 0). rewrite <- Zle_Qle. exact Hv.
  - rewrite <- (Qplus_0_r (inject_Z val * dif)) at 1.
    apply Qplus_le_r. discriminate.
Qed.

Lemma optionsAt_range (i : Z) :
  0 <= i < 8 -> In (optionsAt i) options /\ optionsAt i <> 0 /\ optionsAt i <> 1.
Proof.
  intro H.
  assert (Hi : i = 0 \/ i = 1 \/ i = 2 \/ i = 3 \/ i = 4 \/ i = 5 \/ i = 6
               \/ i = 7) by lia.
  destruct Hi as [-> | [-> | [-> | [-> | [-> | [-> | [-> | ->]]]]]]];
    (split; [cbn; tauto | split; discriminate]).
Qed.

Lemma drawNumbers_finalCoeff (dif : Q) (r : Rand.Src) :
  Rand.valid r ->
  let fc := finalCoeff (fst (drawNumbers dif r)) in
  (if Qgtb dif (12 # 10) then In fc options /\ fc <> 1 else fc = 1)
  /\ fc <> 0.
Proof.
  intros Hv. unfold drawNumbers, Rand.bind, Rand.random, Rand.ret.
  destruct (Qgtb dif (12 # 10)); cbn [fst finalCoeff Rand.draws Rand.cursor].
  - pose proof (floor_draw_range (Rand.draws r (Rand.cursor r)) 8
                  (Hv _) ltac:(lia)) as Hi.
    destruct (optionsAt_range _ Hi) as (H1 & H2 & H3).
    change (Z.of_nat (List.length options)) with 8. auto.
  - split; [reflexivity | discriminate].
Qed.

(** X2. With draws in [[0, 1)] and a difficulty that is not negative, the
    numbers of a level are in the ranges the generator scales: [A] is
    between 2 and [max(4, round(6 * difficulty))], the answer between
    [-round(5 * difficulty)] and [round(5 * difficulty)], [C1] between
    [-round(10 * difficulty)] and [round(10 * difficulty)], and the final
    coefficient is 1 up to difficulty 1.2 and one of 2..5, -2..-5 above. *)
Theorem drawNumbers_bounds (dif : Q) (r : Rand.Src) :
  Rand.valid r -> (0 <= dif)%Q ->
  let d := fst (drawNumbers dif r) in
  2 <= coeffA d <= Z.max 4 (scale dif 6)
  /\ - scale dif 5 <= answer d <= scale dif 5
  /\ - scale dif 10 <= constC1 d <= scale dif 10
  /\ (if Qgtb dif (12 # 10)
      then In (finalCoeff d) options
      else finalCoeff d = 1)
  /\ finalCoeff d <> 0.
Proof.
  intros Hv Hd d.
  pose proof (scale_nonneg dif 5 Hd ltac:(lia)) as H5.
  pose proof (scale_nonneg dif 10 Hd ltac:(lia)) as H10.
  pose proof (drawNumbers_finalCoeff dif r Hv) as [Hfc Hfc0]. fold d in Hfc, Hfc0.
  assert (Hnum :
    2 <= coeffA d <= Z.max 4 (scale dif 6)
    /\ - scale dif 5 <= answer d <= scale dif 5
    /\ - scale dif 10 <= constC1 d <= scale dif 10).
  { unfold d, drawNumbers, Rand.bind, Rand.random, Rand.ret.
    destruct (Qgtb dif (12 # 10));
      cbn [fst coeffA answer constC1 Rand.draws Rand.cursor];
      match goal with
      | |- context [Math_floor (?q1 * inject_Z (scale dif 5 * 2 + 1))] =>
          pose proof (floor_draw_range q1 (scale dif 5 * 2 + 1)
                        (Hv _) ltac:(lia))
      end;
      match goal with
      | |- context [Math_floor (?q2 * inject_Z (Z.max (2 + 2) (scale dif 6) - 2 + 1))] =>
          pose proof (floor_draw_range q2 (Z.max (2 + 2) (scale dif 6) - 2 + 1)
                        (Hv _) ltac:(lia))
      end;
      match goal with
      | |- context [Math_floor (?q3 * inject_Z (scale dif 10 * 2 + 1))] =>
          pose proof (floor_draw_range q3 (scale dif 10 * 2 + 1)
                        (Hv _) ltac:(lia))
      end; lia. }
  destruct Hnum as (HA & Hans & HC).
  repeat split; try tauto; try lia.
  destruct (Qgtb dif (12 # 10)); tauto.
Qed.

Lemma drawNumbers_bounds_witness :
  let d := fst (drawNumbers 1 exampleSrc) in
  2 <= coeffA d <= 6 /\ -5 <= answer d <= 5 /\ -10 <= constC1 d <= 10
  /\ finalCoeff d = 1.
Proof.
  intro d.
  assert (Hv : Rand.valid exampleSrc) by (apply replay_valid; reflexivity).
  destruct (drawNumbers_bounds 1 exampleSrc Hv ltac:(discriminate))
    as (HA & Hans & HC & Hfc & _).
  exact (conj HA (conj Hans (conj HC Hfc))).
Defined.

Lemma generateLevel_residual (dif : Q) (r : Rand.Src) (x : Z) :
  let d := fst (drawNumbers dif r) in
  residual x (fst (generateLevel dif r)) = finalCoeff d * (x - answer d).
Proof.
  intro d. unfold residual.
  rewrite generateLevel_fst, generateLevelWith_stages. cbn [fst snd].
  rewrite !flatMapM_toTerm_sum, splitStage_fst.
  assert (H : rawSideSum x lhs (rawTermsOf d) - rawSideSum x rhs (rawTermsOf d)
              = finalCoeff d * (x - answer d)).
  { unfold rawTermsOf, rawSideSum, sideSum, asTerm, onSide. cbn. ring. }
  fold d. destruct (Qgtb dif (14 # 10)); [|exact H].
  rewrite !flatMapM_splitTerm_sum. exact H.
Qed.

(** X3. A generated level has exactly one solution, the answer drawn: at
    every [x] the left sum minus the right sum is
    [finalCoeff * (x - answer)], and with draws in [[0, 1)] the final
    coefficient is not 0, so the two sides are equal at [x] if and only if
    [x] is the answer. *)
Theorem generateLevel_unique_solution (dif : Q) (r : Rand.Src) :
  Rand.valid r ->
  let d := fst (drawNumbers dif r) in
  let ts := fst (generateLevel dif r) in
  (forall x, residual x ts = finalCoeff d * (x - answer d))
  /\ (forall x, balancedAt x ts <-> x = answer d).
Proof.
  intros Hv d ts.
  pose proof (drawNumbers_finalCoeff dif r Hv) as [_ Hfc]. fold d in Hfc.
  split; [intro x; apply generateLevel_residual|].
  intro x. rewrite balancedAt_residual. unfold ts.
  rewrite generateLevel_residual. fold d. split; intro H; [nia | subst; lia].
Qed.

Lemma generateLevel_unique_solution_witness :
  (balancedAt 4 (fst (generateLevel 1 exampleSrc)) <-> 4 = 4)
  /\ (balancedAt 5 (fst (generateLevel 1 exampleSrc)) <-> 5 = 4).
Proof.
  assert (Hv : Rand.valid exampleSrc) by (apply replay_valid; reflexivity).
  destruct (generateLevel_unique_solution 1 exampleSrc Hv) as [_ H].
  rewrite (proj2 exampleMachine_state) in H. exact (conj (H 4) (H 5)).
Defined.

Lemma flatMapM_toTerm_length_le (rs : list RawTerm) (r : Rand.Src) :
  (List.length (fst (Rand.flatMapM toTerm rs r)) <= List.length rs)%nat.
Proof.
  rewrite flatMapM_toTerm_length. unfold nonZeroCount. apply filter_length_le.
Qed.

Lemma flatMapM_splitTerm_length_le (rs : list RawTerm) (r : Rand.Src) :
  (List.length (fst (Rand.flatMapM splitTerm rs r)) <= 2 * List.length rs)%nat.
Proof.
  revert r. induction rs as [|t rs IH]; intro r; [apply Nat.le_refl|].
  rewrite flatMapM_cons_fst, length_app. cbn [List.length].
  specialize (IH (snd (splitTerm t r))).
  assert (H : (List.length (fst (splitTerm t r)) <= 2)%nat).
  { unfold splitTerm, Rand.bind, Rand.random, Rand.ret.
    destruct (Qgtb _ _ || _); cbn; lia. }
  lia.
Qed.

(** X4. A level never has more than 8 terms, and never more than 4 while
    the difficulty is at most 1.4: only above it are terms split, each into
    at most two. *)
Theorem generateLevel_length_bounds (dif : Q) (r : Rand.Src) :
  (List.length (fst (generateLevel dif r)) <= 8)%nat
  /\ ((dif <= 14 # 10)%Q ->
      (List.length (fst (generateLevel dif r)) <= 4)%nat).
Proof.
  rewrite generateLevel_fst, generateLevelWith_stages. cbn [fst snd].
  pose proof (flatMapM_toTerm_length_le (fst (splitStage dif r))
                (snd (splitStage dif r))) as H.
  rewrite splitStage_fst in H at 2.
  split.
  - destruct (Qgtb dif (14 # 10)).
    + pose proof (flatMapM_splitTerm_length_le
                    (rawTermsOf (fst (drawNumbers dif r)))
                    (snd (drawNumbers dif r))) as H2.
      cbn [rawTermsOf List.length] in H2. lia.
    + cbn [rawTermsOf List.length] in H. lia.
  - intro Hd.
    assert (E : Qgtb dif (14 # 10) = false).
    { unfold Qgtb. apply negb_false_iff, Qle_bool_iff. exact Hd. }
    rewrite E in H. cbn [rawTermsOf List.length] in H. exact H.
Qed.

Lemma generateLevel_length_bounds_witness :
  (List.length (fst (generateLevel 1 exampleSrc)) <= 4)%nat.
Proof.
  exact (proj2 (generateLevel_length_bounds 1 exampleSrc) ltac:(discriminate)).
Defined.

(** ** Difficulty *)

Lemma difficulty_eq (s : State) :
  (difficulty s == (5 + solvedCount s / 3) # 5)%Q.
Proof.
  unfold difficulty, Qeq, Qplus, Qmult, inject_Z. cbn [Qnum Qden]. lia.
Qed.

(** X5. The difficulty is a step function of the solved count that never
    goes down; it is at least 1 once the count is not negative; it exceeds
    1.2, the threshold of the division levels, exactly from 6 solved equations
    on, and 1.4, the threshold of term splitting, exactly from 9 on. So the
    first six levels of a game have the final coefficient 1. *)
Theorem difficulty_gates (s s' : State) (r : Rand.Src) :
  (solvedCount s <= solvedCount s' -> (difficulty s <= difficulty s')%Q)
  /\ (0 <= solvedCount s -> (1 <= difficulty s)%Q)
  /\ (Qgtb (difficulty s) (12 # 10) = true <-> 6 <= solvedCount s)
  /\ (Qgtb (difficulty s) (14 # 10) = true <-> 9 <= solvedCount s)
  /\ (solvedCount s < 6 ->
      finalCoeff (fst (drawNumbers (difficulty s) r)) = 1).
Proof.
  assert (Hgt : forall a : Z,
            Qgtb (difficulty s) (a # 5) = true <-> a < 5 + solvedCount s / 3).
  { intro a. unfold Qgtb. rewrite negb_true_iff.
    rewrite <- not_true_iff_false, Qle_bool_iff, (difficulty_eq s).
    unfold Qle. cbn [Qnum Qden]. lia. }
  assert (H12 : Qgtb (difficulty s) (12 # 10) = true <-> 6 <= solvedCount s).
  { assert (E : Qgtb (difficulty s) (12 # 10) = Qgtb (difficulty s) (6 # 5)).
    { unfold Qgtb. f_equal. apply eq_true_iff_eq.
      rewrite !Qle_bool_iff. unfold Qle. cbn [Qnum Qden]. lia. }
    rewrite E, (Hgt 6).
    pose proof (Z.div_mod (solvedCount s) 3 ltac:(lia)).
    pose proof (Z.mod_pos_bound (solvedCount s) 3 ltac:(lia)). lia. }
  split; [|split; [|split; [exact H12|split]]].
  - intro Hle. rewrite (difficulty_eq s), (difficulty_eq s').
    unfold Qle. cbn [Qnum Qden].
    pose proof (Z.div_le_mono (solvedCount s) (solvedCount s') 3 ltac:(lia) Hle).
    lia.
  - intro H0. rewrite (difficulty_eq s). unfold Qle. cbn [Qnum Qden].
    pose proof (Z.div_pos (solvedCount s) 3 H0 ltac:(lia)). lia.
  - assert (E : Qgtb (difficulty s) (14 # 10) = Qgtb (difficulty s) (7 # 5)).
    { unfold Qgtb. f_equal. apply eq_true_iff_eq.
      rewrite !Qle_bool_iff. unfold Qle. cbn [Qnum Qden]. lia. }
    rewrite E, (Hgt 7).
    pose proof (Z.div_mod (solvedCount s) 3 ltac:(lia)).
    pose proof (Z.mod_pos_bound (solvedCount s) 3 ltac:(lia)). lia.
  - intro Hlt. apply drawNumbers_finalCoeff_easy.
    apply Bool.not_true_is_false. intro E. apply H12 in E. lia.
Qed.

Lemma difficulty_gates_witness :
  (difficulty exampleState
   <= difficulty (setSolvedCount (fun _ => 6%Z) exampleState))%Q
  /\ (1 <= difficulty exampleState)%Q
  /\ finalCoeff (fst (drawNumbers (difficulty exampleState) exampleSrc)) = 1.
Proof.
  destruct (difficulty_gates exampleState
              (setSolvedCount (fun _ => 6) exampleState) exampleSrc)
    as (H1 & H2 & _ & _ & H5).
  exact (conj (H1 ltac:(cbn; lia)) (conj (H2 ltac:(cbn; lia))
           (H5 ltac:(cbn; lia)))).
Defined.

(** ** More on the drag *)

Lemma map_crossTerm_frame (term : Term) (newSide : Side) (ts : list Term) :
  map id (map (crossTerm term newSide) ts) = map id ts
  /\ map hasVariable (map (crossTerm term newSide) ts) = map hasVariable ts.
Proof.
  rewrite !map_map. split; apply map_ext; intro t; unfold crossTerm;
    destruct (String.eqb (id t) (id term)); reflexivity.
Qed.

(** X6. Whatever the drop, a drag keeps the equation: with distinct ids and
    the dragged card among the terms, left sum minus right sum is the same
    at every [x] after [handleDragEnd], so the solutions are the same; and
    the drag adds or removes no card: the ids and the kinds of the terms
    are unchanged, in the same order. *)
Theorem handleDragEnd_keeps_equation (term : Term) (newSide : Side)
    (hit : string -> bool) (s : State) :
  NoDup (map id (terms s)) -> In term (terms s) ->
  let s1 := handleDragEnd term newSide hit s in
  (forall x, residual x (terms s1) = residual x (terms s))
  /\ (forall x, balancedAt x (terms s1) <-> balancedAt x (terms s))
  /\ map id (terms s1) = map id (terms s)
  /\ map hasVariable (terms s1) = map hasVariable (terms s).
Proof.
  intros Hnd Hin s1.
  assert (Hcases : s1 = setTerms (map (crossTerm term newSide)) s
                          /\ newSide <> side term
                   \/ terms s1 = terms s).
  { unfold s1, handleDragEnd. destruct (gameWon s); [right; reflexivity|].
    destruct (find _ _); [right; reflexivity|].
    destruct (Side_eqb newSide (side term)) eqn:E; cbn [negb];
      [right; reflexivity|].
    left. split; [reflexivity|]. intro H. rewrite H, Side_eqb_refl in E.
    discriminate. }
  assert (Hres : forall x, residual x (terms s1) = residual x (terms s)).
  { intro x. destruct Hcases as [[-> Hne] | ->]; [|reflexivity].
    cbn [setTerms terms]. apply residual_cross.
    intros t Ht Hid Hs.
    assert (t = term) by (apply (in_unique_id t term (terms s)); assumption).
    subst t. auto. }
  split; [exact Hres|]. split.
  - intro x. rewrite !balancedAt_residual, Hres. tauto.
  - destruct Hcases as [[-> _] | ->]; [|split; reflexivity].
    cbn [setTerms terms]. apply map_crossTerm_frame.
Qed.

Lemma handleDragEnd_keeps_equation_witness :
  let s1 := handleDragEnd fiveTerm rhs noHit exampleState in
  terms s1 = [ mkTerm "i" 3 true lhs; mkTerm "c" 2 true rhs;
               mkTerm "9" (-5) false rhs; mkTerm "777777777" 9 false rhs ]
  /\ (balancedAt 4 (terms s1) <-> balancedAt 4 (terms exampleState)).
Proof.
  intro s1.
  destruct (handleDragEnd_keeps_equation fiveTerm rhs noHit exampleState
              exampleState_NoDup
              (or_intror (or_intror (or_introl eq_refl))))
    as (_ & H & _).
  exact (conj eq_refl (H 4)).
Defined.

(** ** The counters *)

Lemma handle_counters (e : Event) (m : Machine) :
  solvedCount (mstate (handle e m)) = solvedCount (mstate m)
  /\ (score (mstate (handle e m)) = score (mstate m)
      \/ score (mstate (handle e m)) = score (mstate m) - 2).
Proof.
  destruct e as [term newSide hit | v | | | | | v | v | | |];
    cbn [handle mstate].
  - unfold handleDragEnd. destruct (gameWon (mstate m)); [auto|].
    destruct (find _ _); [auto|]. destruct (negb _); auto.
  - auto.
  - unfold handleMergeSubmit.
    destruct (termA (modal (mstate m))) as [a|]; [|cbn; auto].
    destruct (termB (modal (mstate m))) as [b|]; [|cbn; auto].
    destruct (isNaN _); [cbn; auto|].
    destruct (strictEqZ _ _); [|cbn; auto].
    unfold Rand.bind, Rand.ret. destruct (generateId (rng m)). cbn. auto.
  - auto.
  - destruct (timers m); auto.
  - unfold handleDivisionClick.
    destruct (canDivide (mstate m)) as [[d q]|]; auto.
  - auto.
  - auto.
  - unfold handleDivisionSubmit. destruct (_ && _); cbn; auto.
  - auto.
  - unfold startNewGame, Rand.bind, Rand.ret.
    destruct (generateLevel _ _). cbn. auto.
Qed.

Lemma statusEffect_counters (s : State) :
  (gameWon (statusEffect s) = gameWon s
   /\ score (statusEffect s) = score s
   /\ solvedCount (statusEffect s) = solvedCount s)
  \/ (gameWon s = false /\ gameWon (statusEffect s) = true
      /\ score (statusEffect s) = score s + 10
      /\ solvedCount (statusEffect s) = solvedCount s + 1).
Proof.
  destruct (gameWon s) eqn:Hw.
  - left. unfold statusEffect. rewrite Hw. cbn. auto.
  - rewrite (statusEffect_cases s Hw).
    destruct (specStatus (terms s)) as [|k q|].
    + left. destruct (List.length (terms s) =? 2)%nat; cbn; auto.
    + left. cbn. auto.
    + right. cbn. auto.
Qed.

(** X7. One event changes the counters in one of two ways only. Either the
    solved count stays and the score stays or drops by 2; or the event
    enters the won state, the solved count grows by exactly 1 and the score
    by 10 (less the 2 of a rejected submission). The solved count never
    decreases, so neither does the difficulty, over any sequence of
    events. *)
Theorem dispatch_counters (e : Event) (m : Machine) (es : list Event) :
  let m' := dispatch e m in
  ((solvedCount (mstate m') = solvedCount (mstate m)
    /\ (score (mstate m') = score (mstate m)
        \/ score (mstate m') = score (mstate m) - 2))
   \/ (gameWon (mstate m') = true
       /\ solvedCount (mstate m') = solvedCount (mstate m) + 1
       /\ (score (mstate m') = score (mstate m) + 10
           \/ score (mstate m') = score (mstate m) + 8)))
  /\ solvedCount (mstate m) <= solvedCount (mstate (run es m))
  /\ (difficulty (mstate m) <= difficulty (mstate (run es m)))%Q.
Proof.
  intro m'.
  assert (Hstep : forall e0 m0,
            solvedCount (mstate m0) <= solvedCount (mstate (dispatch e0 m0))).
  { intros e0 m0. unfold dispatch. cbn [mstate].
    destruct (handle_counters e0 m0) as [Hs _].
    destruct (statusEffect_counters (mstate (handle e0 m0)))
      as [(_ & _ & H) | (_ & _ & _ & H)]; lia. }
  assert (Hall : forall m0,
            solvedCount (mstate m0) <= solvedCount (mstate (run es m0))).
  { induction es as [|e0 es IH]; intro m0; [apply Z.le_refl|].
    unfold run. cbn [fold_left]. specialize (IH (dispatch e0 m0)).
    unfold run in IH. specialize (Hstep e0 m0). lia. }
  pose proof (Hall m) as Hrun.
  split; [|split; [exact Hrun|]].
  - unfold m', dispatch. cbn [mstate].
    destruct (handle_counters e m) as [Hs Hsc].
    destruct (statusEffect_counters (mstate (handle e m)))
      as [(_ & H1 & H2) | (_ & Hw & H1 & H2)].
    + left. rewrite H1, H2. auto.
    + right. rewrite H1, H2. split; [exact Hw|]. split; [lia|].
      destruct Hsc as [-> | ->]; [left | right]; lia.
  - rewrite (difficulty_eq (mstate m)), (difficulty_eq (mstate (run es m))).
    unfold Qle. cbn [Qnum Qden].
    pose proof (Z.div_le_mono _ _ 3 ltac:(lia) Hrun). lia.
Qed.

(** X8. In every state the component can reach the solved count is not
    negative and the score is ten points for each solved equation less two
    for each of some number of rejected submissions: it is even and never
    above ten times the solved count. *)
Theorem reachable_score (m : Machine) :
  reachable m ->
  0 <= solvedCount (mstate m)
  /\ (exists n, 0 <= n
                /\ score (mstate m) = 10 * solvedCount (mstate m) - 2 * n)
  /\ score (mstate m) <= 10 * solvedCount (mstate m)
  /\ Z.even (score (mstate m)) = true.
Proof.
  intro Hm.
  assert (H : 0 <= solvedCount (mstate m)
              /\ exists n, 0 <= n
                   /\ score (mstate m) = 10 * solvedCount (mstate m) - 2 * n).
  { induction Hm as [r Hr | m e Hm IH He].
    - unfold mount. destruct (generateLevel 1 r) as [ts r']. cbn [mstate].
      destruct (statusEffect_counters (setTerms (fun _ => ts) initialState))
        as [(_ & H1 & H2) | (_ & _ & H1 & H2)]; rewrite H1, H2;
        unfold setTerms, initialState; cbn [score solvedCount];
        (split; [lia|]); exists 0; lia.
    - destruct IH as [H0 (n & Hn & Hsc)].
      unfold dispatch. cbn [mstate].
      destruct (handle_counters e m) as [Hs Hh].
      destruct (statusEffect_counters (mstate (handle e m)))
        as [(_ & H1 & H2) | (_ & _ & H1 & H2)]; rewrite H1, H2, Hs;
        (split; [lia|]);
        destruct Hh as [-> | ->];
        first [exists n; lia | exists (n + 1); lia]. }
  destruct H as [H0 (n & Hn & Hsc)].
  split; [exact H0|]. split; [exists n; auto|]. split; [lia|].
  rewrite Hsc.
  replace (10 * solvedCount (mstate m) - 2 * n)
    with (2 * (5 * solvedCount (mstate m) - n)) by lia.
  apply Z.even_mul.
Qed.

Lemma reachable_score_witness :
  score (mstate (run wrongWinTrace exampleMachine))
  <= 10 * solvedCount (mstate (run wrongWinTrace exampleMachine))
  /\ 0 <= solvedCount (mstate (run wrongWinTrace exampleMachine)).
Proof.
  destruct (reachable_score (run wrongWinTrace exampleMachine)
              (reachable_run _ _ exampleMachine_reachable wrongWinTrace_enabled))
    as (H0 & _ & H & _).
  exact (conj H H0).
Defined.

(** ** More on the status effect *)

Lemma statusEffect_dialogs (s : State) :
  modal (statusEffect s) = modal s
  /\ divisionModal (statusEffect s) = divisionModal s.
Proof.
  destruct (gameWon s) eqn:Hw.
  - unfold statusEffect. rewrite Hw. split; reflexivity.
  - rewrite (statusEffect_cases s Hw).
    destruct (specStatus (terms s)) as [|k q|];
      [destruct (List.length (terms s) =? 2)%nat| |]; split; reflexivity.
Qed.

(** X9. The status effect is idempotent, it never touches the terms or the
    two dialogs, and a win is counted once: on a state that is already won
    it changes neither the score nor the solved count, whatever the terms
    are. *)
Theorem statusEffect_idempotent (s : State) :
  statusEffect (statusEffect s) = statusEffect s
  /\ terms (statusEffect s) = terms s
  /\ modal (statusEffect s) = modal s
  /\ divisionModal (statusEffect s) = divisionModal s
  /\ (gameWon s = true ->
      gameWon (statusEffect s) = true
      /\ score (statusEffect s) = score s
      /\ solvedCount (statusEffect s) = solvedCount s
      /\ canDivide (statusEffect s) = None).
Proof.
  split; [apply statusEffect_idem|]. split; [apply statusEffect_terms|].
  destruct (statusEffect_dialogs s) as [H1 H2].
  split; [exact H1|]. split; [exact H2|].
  intro Hw. unfold statusEffect. rewrite Hw. cbn. auto.
Qed.

Lemma statusEffect_idempotent_witness :
  let s := mstate (run wrongWinTrace exampleMachine) in
  gameWon (statusEffect s) = true /\ score (statusEffect s) = score s.
Proof.
  intro s.
  assert (Hw : gameWon s = true).
  { unfold s. rewrite (proj2 (proj2 (proj2 example_play))). reflexivity. }
  destruct (statusEffect_idempotent s) as (_ & _ & _ & _ & H).
  destruct (H Hw) as (H1 & H2 & _). exact (conj H1 H2).
Defined.

Lemma handle_divisionSafe (e : Event) (m : Machine) :
  divisionSafe (mstate m) -> divisionSafe (mstate (handle e m)).
Proof.
  intros (Hw & Hc & Hd). unfold divisionSafe.
  destruct e as [term newSide hit | v | | | | | v | v | | |];
    cbn [handle mstate].
  - unfold handleDragEnd. destruct (gameWon (mstate m)) eqn:E; [auto|].
    destruct (find _ _); [|destruct (negb _)]; cbn; rewrite ?E; auto.
  - cbn. auto.
  - unfold handleMergeSubmit.
    destruct (termA (modal (mstate m))) as [a|]; [|cbn; auto].
    destruct (termB (modal (mstate m))) as [b|]; [|cbn; auto].
    destruct (isNaN _); [cbn; auto|].
    destruct (strictEqZ _ _); [|cbn; auto].
    unfold Rand.bind, Rand.ret. destruct (generateId (rng m)). cbn. auto.
  - cbn. auto.
  - destruct (timers m); cbn; auto.
  - assert (Hcl : handleDivisionClick (mstate m) = mstate m
                  \/ exists d q,
                       canDivide (mstate m) = Some (d, q)
                       /\ handleDivisionClick (mstate m)
                          = setDivisionModal
                              (fun _ => mkDivisionModal true d q "" "" None)
                              (mstate m)).
    { unfold handleDivisionClick.
      destruct (canDivide (mstate m)) as [[d q]|]; [right | left; reflexivity].
      exists d, q. auto. }
    destruct Hcl as [-> | (d & q & E & ->)]; [auto|].
    cbn. split; [exact Hw|]. split; [exact Hc|].
    exact (proj1 (Hc d q E)).
  - cbn. auto.
  - cbn. auto.
  - unfold handleDivisionSubmit. destruct (_ && _); cbn; auto.
    split; [exact Hw|]. split; [exact Hc|]. discriminate.
  - cbn. split; [exact Hw|]. split; [exact Hc|]. discriminate.
  - unfold startNewGame, Rand.bind, Rand.ret.
    destruct (generateLevel _ _). cbn.
    split; [intros; discriminate|]. split; [intros; discriminate | exact Hd].
Qed.

Lemma statusEffect_divisionSafe (s : State) :
  noZeroVar (terms s) -> divisionSafe s -> divisionSafe (statusEffect s).
Proof.
  intros Hnz (Hw & Hc & Hd). unfold divisionSafe.
  destruct (statusEffect_dialogs s) as [_ Hdm]. rewrite Hdm.
  destruct (gameWon s) eqn:Ew.
  - unfold statusEffect. rewrite Ew. cbn.
    split; [reflexivity|]. split; [intros; discriminate | exact Hd].
  - rewrite (statusEffect_cases s Ew).
    destruct (specStatus (terms s)) as [|k q|] eqn:Es.
    + assert (E : (if (List.length (terms s) =? 2)%nat
                   then s else setCanDivide None s)
                  = s \/ (if (List.length (terms s) =? 2)%nat
                          then s else setCanDivide None s)
                         = setCanDivide None s)
        by (destruct (List.length (terms s) =? 2)%nat; auto).
      destruct E as [-> | ->].
      { split; [intro H; rewrite Ew in H; discriminate|].
        split; assumption. }
      cbn. rewrite Ew.
      split; [intros; discriminate|]. split; [intros; discriminate | exact Hd].
    + cbn. rewrite Ew. split; [intros; discriminate|]. split; [|exact Hd].
      intros k' q' E. injection E as <- <-.
      apply specStatus_divisionReady_inv in Es.
      destruct Es as (v & c & Hshape & _ & Hv & _ & Hk & _ & Hk1).
      split; [|exact Hk1]. rewrite <- Hk.
      unfold noZeroVar in Hnz. rewrite Forall_forall in Hnz.
      apply (Hnz v); [|exact Hv].
      destruct Hshape as [-> | ->]; cbn; auto.
    + cbn. split; [reflexivity|]. split; [intros; discriminate | exact Hd].
Qed.

(** X10. In every state the component can reach: a won game shows no
    Divide button; a pending division never has the divisor 0 or 1; and the
    divisor held by the division dialog is never 0, so the quotient the
    submission is compared with is always a finite number. *)
Theorem reachable_divisionSafe (m : Machine) :
  reachable m ->
  (gameWon (mstate m) = true -> canDivide (mstate m) = None)
  /\ (forall k q, canDivide (mstate m) = Some (k, q) -> k <> 0 /\ k <> 1)
  /\ divisor (divisionModal (mstate m)) <> 0
  /\ jsDiv (dividend (divisionModal (mstate m)))
           (divisor (divisionModal (mstate m))) <> NonFinite.
Proof.
  intro Hm.
  assert (H : divisionSafe (mstate m)).
  { induction Hm as [r Hr | m e Hm IH He].
    - pose proof (reachable_noZeroVar _ (reachable_mount r Hr)) as Hnz.
      unfold mount in *. destruct (generateLevel 1 r) as [ts r'].
      cbn [mstate] in *. rewrite statusEffect_terms in Hnz.
      apply statusEffect_divisionSafe; [exact Hnz|].
      unfold divisionSafe. cbn.
      split; [intros; discriminate|]. split; intros; discriminate.
    - pose proof (reachable_noZeroVar _ (reachable_step m e Hm He)) as Hnz.
      unfold dispatch in *. cbn [mstate] in *.
      rewrite statusEffect_terms in Hnz.
      apply statusEffect_divisionSafe; [exact Hnz|].
      apply handle_divisionSafe. exact IH. }
  destruct H as (H1 & H2 & H3).
  split; [exact H1|]. split; [exact H2|]. split; [exact H3|].
  unfold jsDiv. apply Z.eqb_neq in H3. rewrite H3. discriminate.
Qed.

Lemma reachable_divisionSafe_witness :
  let m := run mergeBothTrace exampleMachine in
  canDivide (mstate m) = Some (-1, -4) /\ -1 <> 0 /\ -1 <> 1.
Proof.
  intro m.
  assert (Hr : reachable m).
  { apply reachable_run; [exact exampleMachine_reachable|].
    pose proof wrongWinTrace_enabled as H.
    unfold wrongWinTrace, wrongDivisionTrace, staleTrace in H.
    apply enabledAll_app in H. destruct H as [H _].
    apply enabledAll_app in H. destruct H as [H _].
    apply enabledAll_app in H. destruct H as [H _]. exact H. }
  assert (Hc : canDivide (mstate m) = Some (-1, -4)).
  { unfold m. rewrite (proj1 example_play). reflexivity. }
  destruct (reachable_divisionSafe m Hr) as (_ & H & _).
  exact (conj Hc (H (-1) (-4) Hc)).
Defined.

(** ** New levels *)

Lemma specStatus_won_inv (ts : list Term) :
  specStatus ts = won ->
  exists v c,
    (ts = [v; c] \/ ts = [c; v])
    /\ hasVariable v = true /\ hasVariable c = false /\ coefficient v = 1.
Proof.
  destruct ts as [|t [|u [|w l]]]; try discriminate.
  unfold specStatus.
  destruct (Side_eqb (side t) (side u)); [discriminate|].
  destruct (hasVariable t) eqn:Ht, (hasVariable u) eqn:Hu;
    cbn [andb negb]; try discriminate.
  - destruct (coefficient t =? 1) eqn:E; [|discriminate].
    intros _. apply Z.eqb_eq in E. exists t, u. auto.
  - destruct (coefficient u =? 1) eqn:E; [|discriminate].
    intros _. apply Z.eqb_eq in E. exists u, t. auto.
Qed.

Lemma generateLevel_not_won (dif : Q) (r : Rand.Src) :
  Rand.valid r -> specStatus (fst (generateLevel dif r)) <> won.
Proof.
  intros Hv Hwon.
  pose proof (generateLevel_groupSum true lhs dif r) as Hg.
  pose proof (drawNumbers_coeffA dif r Hv) as HA.
  assert (E : rawGroupSum true lhs (rawTermsOf (fst (drawNumbers dif r)))
              = coeffA (fst (drawNumbers dif r))).
  { unfold rawTermsOf, rawGroupSum, groupSum. cbn. lia. }
  rewrite E in Hg. clear E.
  apply specStatus_won_inv in Hwon.
  destruct Hwon as (v & c & Hshape & Hv1 & Hc1 & Hone).
  destruct Hshape as [E | E]; rewrite E in Hg;
    rewrite !groupSum_cons in Hg; unfold inGroup in Hg;
    rewrite Hv1, Hc1 in Hg; cbn [Bool.eqb andb] in Hg;
    unfold groupSum in Hg; cbn [filter fold_right] in Hg;
    destruct (Side_eqb (side v) lhs); lia.
Qed.

Lemma fresh_status (s : State) :
  gameWon s = false -> canDivide s = None -> specStatus (terms s) <> won ->
  gameWon (statusEffect s) = false
  /\ score (statusEffect s) = score s
  /\ solvedCount (statusEffect s) = solvedCount s
  /\ status (statusEffect s) = specStatus (terms s).
Proof.
  intros Hw Hc Hn. rewrite (statusEffect_cases s Hw).
  destruct (specStatus (terms s)) as [|k q|]; [| |contradiction].
  - destruct (List.length (terms s) =? 2)%nat; unfold status; cbn;
      rewrite Hw, ?Hc; auto.
  - unfold status. cbn. rewrite Hw. auto.
Qed.

(** X11. A fresh level is never already solved. With draws in [[0, 1)], at
    mount and after a skip or "Next Equation" the game is not won, the
    score and the solved count are what they were (0 at mount), the terms
    are the level generated at the current difficulty, and the status is
    exactly the one the terms have: playing, or ready to divide. *)
Theorem fresh_level (m : Machine) (r : Rand.Src) :
  Rand.valid r -> Rand.valid (rng m) ->
  (let s := mstate (mount r) in
   gameWon s = false /\ score s = 0 /\ solvedCount s = 0
   /\ terms s = fst (generateLevel 1 r)
   /\ status s = specStatus (terms s))
  /\ (let s' := mstate (dispatch NewGame m) in
      gameWon s' = false
      /\ score s' = score (mstate m)
      /\ solvedCount s' = solvedCount (mstate m)
      /\ terms s' = fst (generateLevel (difficulty (mstate m)) (rng m))
      /\ status s' = specStatus (terms s')).
Proof.
  intros Hr Hm. split.
  - pose proof (generateLevel_not_won 1 r Hr) as Hn.
    unfold mount. destruct (generateLevel 1 r) as [ts r']. cbn [fst] in Hn.
    cbn [mstate].
    destruct (fresh_status (setTerms (fun _ => ts) initialState)
                eq_refl eq_refl Hn) as (H1 & H2 & H3 & H4).
    rewrite statusEffect_terms.
    split; [exact H1|]. split; [exact H2|]. split; [exact H3|].
    split; [reflexivity | exact H4].
  - pose proof (generateLevel_not_won (difficulty (mstate m)) (rng m) Hm) as Hn.
    unfold dispatch, handle. cbn [mstate].
    unfold startNewGame, Rand.bind, Rand.ret.
    destruct (generateLevel (difficulty (mstate m)) (rng m)) as [ts r'].
    cbn [fst mstate] in *.
    set (s1 := setTerms (fun _ => ts)
                 (setCanDivide None (setGameWon false (mstate m)))).
    destruct (fresh_status s1 eq_refl eq_refl Hn) as (H1 & H2 & H3 & H4).
    rewrite statusEffect_terms.
    split; [exact H1|]. split; [exact H2|]. split; [exact H3|].
    split; [reflexivity | exact H4].
Qed.

Lemma fresh_level_witness :
  gameWon (mstate (mount exampleSrc)) = false
  /\ gameWon (mstate (dispatch NewGame (run wrongWinTrace exampleMachine)))
     = false.
Proof.
  assert (Hv : Rand.valid exampleSrc) by (apply replay_valid; reflexivity).
  assert (Hv' : Rand.valid (rng (run wrongWinTrace exampleMachine))).
  { rewrite exampleMachine_eq. intro n. apply (Hv n). }
  destruct (fresh_level (run wrongWinTrace exampleMachine) exampleSrc Hv Hv')
    as [(H1 & _) (H2 & _)].
  exact (conj H1 H2).
Defined.

(** ** The display *)













Lemma insertSorted_variable (x : Term) (vs cs : list Term) :
  hasVariable x = true ->
  Forall (fun t => hasVariable t = true) vs ->
  Forall (fun t => hasVariable t = false) cs ->
  insertSorted variablesFirst x (vs ++ cs) = (vs ++ [x]) ++ cs.
Proof.
  intros Hx Hvs Hcs. induction Hvs as [|v vs Hv Hvs IH]; cbn [app].
  - destruct Hcs as [|c cs Hc Hcs]; [reflexivity|].
    cbn [insertSorted]. unfold variablesFirst. rewrite Hx, Hc. reflexivity.
  - cbn [insertSorted]. unfold variablesFirst at 1. rewrite Hx, Hv.
    cbn. rewrite IH. reflexivity.
Qed.

Lemma insertSorted_constant (x : Term) (l : list Term) :
  hasVariable x = false ->
  insertSorted variablesFirst x l = l ++ [x].
Proof.
  intro Hx. induction l as [|y l IH]; [reflexivity|].
  cbn [insertSorted app]. unfold variablesFirst at 1. rewrite Hx.
  destruct (hasVariable y); cbn; rewrite IH; reflexivity.
Qed.

Lemma Array_sort_from (l vs cs : list Term) :
  Forall (fun t => hasVariable t = true) vs ->
  Forall (fun t => hasVariable t = false) cs ->
  fold_left (fun acc x => insertSorted variablesFirst x acc) l (vs ++ cs)
  = (vs ++ filter hasVariable l) ++ (cs ++ filter isConstant l).
Proof.
  revert vs cs. induction l as [|x l IH]; intros vs cs Hvs Hcs.
  - cbn. rewrite !app_nil_r. reflexivity.
  - cbn [fold_left filter]. unfold isConstant at 1.
    destruct (hasVariable x) eqn:Hx; cbn [negb].
    + rewrite (insertSorted_variable x vs cs Hx Hvs Hcs).
      rewrite IH; [|apply Forall_app; split; [exact Hvs | repeat constructor; exact Hx]
                    |exact Hcs].
      rewrite <- !app_assoc. reflexivity.
    + rewrite (insertSorted_constant x (vs ++ cs) Hx), <- app_assoc.
      rewrite IH; [|exact Hvs
                    |apply Forall_app; split; [exact Hcs | repeat constructor; exact Hx]].
      rewrite <- !app_assoc. reflexivity.
Qed.

(** X13. The equation string lists, on each side, the variable terms
    before the constants, each group in the order of [terms]: the sort by
    [hasVariable] is this stable partition. A side without terms is shown as
    [0], so an empty term list gives [0 = 0]. *)
Theorem getEquationString_layout (ts : list Term) :
  (forall l, Array_sort variablesFirst l
             = filter hasVariable l ++ filter isConstant l)
  /\ getEquationString ts
     = (formatSide (filter hasVariable (filter (onSide lhs) ts)
                    ++ filter isConstant (filter (onSide lhs) ts))
        ++ " = "
        ++ formatSide (filter hasVariable (filter (onSide rhs) ts)
                       ++ filter isConstant (filter (onSide rhs) ts)))%string
  /\ (filter (onSide lhs) ts = [] ->
      getEquationString ts
      = ("0 = " ++ formatSide (Array_sort variablesFirst
                                 (filter (onSide rhs) ts)))%string)
  /\ getEquationString [] = "0 = 0"%string.
Proof.
  assert (Hsort : forall l, Array_sort variablesFirst l
                            = filter hasVariable l ++ filter isConstant l).
  { intro l. unfold Array_sort.
    exact (Array_sort_from l [] [] (Forall_nil _) (Forall_nil _)). }
  split; [exact Hsort|]. split; [|split; [|reflexivity]].
  - unfold getEquationString. rewrite !Hsort. reflexivity.
  - intro E. unfold getEquationString. rewrite E. reflexivity.
Qed.

Lemma getEquationString_layout_witness :
  getEquationString [ mkTerm "a" 7 false rhs; mkTerm "b" (-1) true rhs ]
  = ("0 = " ++ formatSide [ mkTerm "b" (-1) true rhs; mkTerm "a" 7 false rhs ])%string.
Proof.
  destruct (getEquationString_layout
              [ mkTerm "a" 7 false rhs; mkTerm "b" (-1) true rhs ])
    as (_ & _ & H & _).
  exact (H eq_refl).
Defined.

Lemma formatTerm_nonzero (c : Z) (hv showSign : bool) :
  c <> 0 ->
  formatTerm c hv showSign
  = String.append
      (if showSign then (if 0 <=? c then "+"%string else "-"%string)
       else if c <? 0 then "-"%string else ""%string)
      (magnitude (mkTerm "" c hv lhs)).
Proof.
  intro H. unfold formatTerm, magnitude. cbn [coefficient hasVariable].
  apply Z.eqb_neq in H. rewrite H. reflexivity.
Qed.

(** X14. How one term is written in a side. The first term is its
    magnitude, with a leading [-] when negative; every later term is a
    space, its sign, a space and its magnitude. The magnitude is the
    absolute coefficient (left out for a unit variable term) followed by
    [x] for a variable term. A term with coefficient 0 is written [0] in the
    first place, but in a later place only [ + ] is written: the digit is
    cut off with the sign. *)
Theorem formatPiece_shape (t : Term) :
  (0 < coefficient t ->
     formatPiece true t = magnitude t
     /\ formatPiece false t = (" + " ++ magnitude t)%string)
  /\ (coefficient t < 0 ->
      formatPiece true t = ("-" ++ magnitude t)%string
      /\ formatPiece false t = (" - " ++ magnitude t)%string)
  /\ (coefficient t = 0 ->
      formatPiece true t = "0"%string
      /\ formatPiece false t = " + "%string).
Proof.
  assert (Hm : magnitude (mkTerm "" (coefficient t) (hasVariable t) lhs)
               = magnitude t) by reflexivity.
  split; [|split].
  - intro H. unfold formatPiece. cbn [negb].
    rewrite !formatTerm_nonzero by lia. rewrite Hm.
    assert (E1 : (0 <=? coefficient t) = true) by (apply Z.leb_le; lia).
    assert (E2 : (coefficient t <? 0) = false) by (apply Z.ltb_ge; lia).
    rewrite E1, E2. split; reflexivity.
  - intro H. unfold formatPiece. cbn [negb].
    rewrite !formatTerm_nonzero by lia. rewrite Hm.
    assert (E1 : (0 <=? coefficient t) = false) by (apply Z.leb_gt; lia).
    assert (E2 : (coefficient t <? 0) = true) by (apply Z.ltb_lt; lia).
    rewrite E1, E2. split; reflexivity.
  - intro H. unfold formatPiece, formatTerm. rewrite H.
    destruct (hasVariable t); split; reflexivity.
Qed.

Lemma formatPiece_shape_witness :
  formatPiece false (mkTerm "6" 0 false lhs) = " + "%string
  /\ formatPiece false (mkTerm "c" (-2) true rhs)
     = (" - " ++ magnitude (mkTerm "c" (-2) true rhs))%string
  /\ getEquationString (terms (mstate (run zeroTrace (mount zeroSrc))))
     = "3x +  = 2x"%string.
Proof.
  destruct (formatPiece_shape (mkTerm "6" 0 false lhs)) as (_ & _ & H0).
  destruct (formatPiece_shape (mkTerm "c" (-2) true rhs)) as (_ & Hn & _).
  split; [exact (proj2 (H0 eq_refl))|].
  split; [exact (proj2 (Hn eq_refl))|].
  rewrite zeroMachine_eq. vm_compute. reflexivity.
Defined.

(** ** Retrying a submission *)

Lemma divisionPending_retry (s0 : State) (k m : Z) (w1 w2 v1 v2 : string) :
  canDivide s0 = Some (k, m) ->
  divisionAccepted (divisionPending w1 w2 s0) = false ->
  changeResultInput v2
    (changeDivisorInput v1 (handleDivisionSubmit (divisionPending w1 w2 s0)))
  = setScore (fun x => x - 2) (divisionPending v1 v2 s0).
Proof.
  intros Hcd Hrej. rewrite (handleDivisionSubmit_rejected _ Hrej).
  unfold divisionPending, handleDivisionClick. rewrite Hcd. reflexivity.
Qed.

(** X15. A rejected division can be retried. While the state is
    division-ready, a rejected submission followed by a corrected one in
    the same dialog ends with the terms a direct correct submission would
    have given, the dialog closed, and the score 2 lower: the failed attempt
    costs its penalty and nothing else. *)
Theorem retryDivision_spec (s0 : State) (k m : Z) (w1 w2 v1 v2 : string) :
  canDivide s0 = Some (k, m) ->
  divisionAccepted (divisionPending w1 w2 s0) = false ->
  divisionAccepted (divisionPending v1 v2 s0) = true ->
  let s2 := retryDivision w1 w2 v1 v2 s0 in
  terms s2 = terms (handleDivisionSubmit (divisionPending v1 v2 s0))
  /\ terms s2 = map (divided (valueOf (parseInt v2))) (terms s0)
  /\ score s2 = score s0 - 2
  /\ divisionModal s2 = closedDivisionModal.
Proof.
  intros Hcd Hrej Hacc s2.
  pose proof (divisionPending_submit_accepted s0 k m v1 v2 Hcd Hacc) as Hdirect.
  destruct (divisionPending_state s0 k m v1 v2 Hcd) as (_ & _ & Hsc).
  unfold s2, retryDivision.
  rewrite (divisionPending_retry s0 k m w1 w2 v1 v2 Hcd Hrej).
  assert (Ha : divisionAccepted
                 (setScore (fun x => x - 2) (divisionPending v1 v2 s0)) = true)
    by exact Hacc.
  assert (Hl : terms (handleDivisionSubmit
                        (setScore (fun x => x - 2) (divisionPending v1 v2 s0)))
               = terms (handleDivisionSubmit (divisionPending v1 v2 s0))).
  { rewrite (handleDivisionSubmit_accepted _ Ha).
    rewrite (handleDivisionSubmit_accepted _ Hacc). reflexivity. }
  split; [exact Hl|]. split; [rewrite Hl; exact Hdirect|].
  rewrite (handleDivisionSubmit_accepted _ Ha).
  cbn [closeDivisionModal setDivisionModal setTerms setScore terms score
         divisionModal].
  rewrite Hsc. split; reflexivity.
Qed.

Lemma retryDivision_spec_witness :
  let s2 := retryDivision "1" "5" "-1" "4" divisionReadyState in
  terms s2 = [ mkTerm "6" 1 true rhs; mkTerm "4" 4 false lhs ]
  /\ score s2 = -2.
Proof.
  intro s2.
  destruct (retryDivision_spec divisionReadyState (-1) (-4) "1" "5" "-1" "4"
              eq_refl eq_refl eq_refl) as (_ & H1 & H2 & _).
  exact (conj H1 H2).
Defined.

(** X16. A rejected merge can be retried while its dialog is still open.
    A wrong or non-numeric text followed by the right sum, for the same
    pending terms, ends with the terms a direct correct submission would
    have given and the dialog closed; the score is 2 lower after a wrong
    number and unchanged after a text that is not a number. The dismiss
    timer that fires later changes nothing more. *)
Theorem retryMerge_spec (s : State) (r : Rand.Src) (a b : Term)
    (w v : string) :
  termA (modal s) = Some a -> termB (modal s) = Some b ->
  parseInt w <> Int (coefficient a + coefficient b) ->
  parseInt v = Int (coefficient a + coefficient b) ->
  let s2 := fst (retryMerge w v s r) in
  terms s2 = terms (fst (handleMergeSubmit (changeMergeInput v s) r))
  /\ terms s2
     = mergedTerms a b (mergeResult a b (fst (generateId r))) (terms s)
  /\ score s2 = (if isNaN (parseInt w) then score s else score s - 2)
  /\ modal s2 = closedModal
  /\ mergeTimeout s2 = s2.
Proof.
  intros Ha Hb Hw Hv s2.
  assert (E1 : handleMergeSubmit (changeMergeInput w s) r
               = (if isNaN (parseInt w)
                  then setModal (withError "Please enter a valid number")
                         (changeMergeInput w s)
                  else setModal (withError "Incorrect sum. -2 Points!")
                         (setScore (fun x => x - 2) (changeMergeInput w s)),
                  r)).
  { apply (handleMergeSubmit_not_accepted (changeMergeInput w s) r a b);
      cbn; assumption. }
  assert (Hdirect : fst (handleMergeSubmit (changeMergeInput v s) r)
                    = closeModal
                        (setTerms
                           (mergedTerms a b (mergeResult a b (fst (generateId r))))
                           (changeMergeInput v s))).
  { apply handleMergeSubmit_accepted; cbn; assumption. }
  unfold s2, retryMerge, Rand.bind. rewrite E1, Hdirect.
  set (s1 := if isNaN (parseInt w)
             then setModal (withError "Please enter a valid number")
                    (changeMergeInput w s)
             else setModal (withError "Incorrect sum. -2 Points!")
                    (setScore (fun x => x - 2) (changeMergeInput w s))).
  assert (H1 : termA (modal (changeMergeInput v s1)) = Some a
               /\ termB (modal (changeMergeInput v s1)) = Some b
               /\ inputValue (modal (changeMergeInput v s1)) = v
               /\ terms s1 = terms s
               /\ score s1 = if isNaN (parseInt w) then score s else score s - 2).
  { unfold s1. destruct (isNaN (parseInt w)); cbn; auto. }
  destruct H1 as (HA & HB & HI & HT & HS).
  rewrite (handleMergeSubmit_accepted (changeMergeInput v s1) r a b HA HB)
    by (rewrite HI; exact Hv).
  cbn [closeModal setModal setTerms changeMergeInput terms score modal].
  rewrite HT, HS. repeat split.
Qed.

Lemma retryMerge_spec_witness :
  let s2 := fst (retryMerge "7" "-4" (mergePending "") exampleSrc) in
  terms s2 = [ mkTerm "i" 3 true lhs; mkTerm "c" 2 true rhs;
               mkTerm "u" (-4) false lhs ]
  /\ score s2 = -2.
Proof.
  intro s2.
  destruct (retryMerge_spec (mergePending "") exampleSrc
              (mkTerm "777777777" (-9) false lhs) fiveTerm "7" "-4"
              eq_refl eq_refl ltac:(discriminate) eq_refl)
    as (_ & H1 & H2 & _).
  exact (conj H1 H2).
Defined.

(** ** What the status says about the equation *)

Lemma specStatus_solution (ts : list Term) :
  (specStatus ts = won ->
     exists c, shownAnswer ts = Some c
               /\ forall x, balancedAt x ts <-> x = c)
  /\ (forall k m, specStatus ts = divisionReady k m ->
        forall x, balancedAt x ts <-> k * x = m).
Proof.
  split.
  - destruct ts as [|t [|u [|w l]]]; try discriminate.
    unfold specStatus.
    destruct t as [it ct ht st], u as [iu cu hu su].
    cbn [coefficient hasVariable side].
    destruct st, su; cbn [Side_eqb]; try discriminate;
      destruct ht, hu; cbn [andb negb]; try discriminate.
    all: match goal with
         | |- context [?c =? 1] =>
             destruct (c =? 1) eqn:E; [|discriminate];
             apply Z.eqb_eq in E; subst
         end.
    all: intros _; eexists; split; [reflexivity|].
    all: intro x; unfold balancedAt, sideSum, termValue;
      cbn -[Z.mul]; rewrite Z.mul_1_l; split; intro H; lia.
  - intros k m H x.
    apply specStatus_divisionReady_inv in H.
    destruct H as (v & c & Hshape & Hsd & Hv & Hc & Hkv & Hmc & _).
    destruct v as [iv cv hv sv], c as [ic cc hc sc]. cbn in *. subst.
    unfold balancedAt, sideSum, termValue.
    destruct Hshape as [-> | ->]; destruct sv, sc; try contradiction;
      cbn -[Z.mul]; split; intro H; lia.
Qed.

(** X17. The status effect tells the solution of the equation on the
    screen. When it declares a game won, the value the win dialog shows (the
    coefficient of the first constant term) is the one solution of the live
    equation; when it raises the Divide button with divisor [k] and dividend
    [m], the solutions of the live equation are exactly the [x] with
    [k * x = m]. *)
Theorem status_solution (s : State) :
  gameWon s = false ->
  (gameWon (statusEffect s) = true ->
     exists c, shownAnswer (terms (statusEffect s)) = Some c
               /\ forall x, balancedAt x (terms (statusEffect s)) <-> x = c)
  /\ (forall k m,
        canDivide s = None -> canDivide (statusEffect s) = Some (k, m) ->
        forall x, balancedAt x (terms (statusEffect s)) <-> k * x = m).
Proof.
  intro Hw. rewrite statusEffect_terms. split.
  - intro H. apply (proj1 (statusEffect_won s Hw)) in H.
    exact (proj1 (specStatus_solution (terms s)) H).
  - intros k m Hcd H.
    apply (proj2 (specStatus_solution (terms s)) k m).
    rewrite (statusEffect_cases s Hw) in H.
    destruct (specStatus (terms s)) as [|k' m'|].
    + destruct (List.length (terms s) =? 2)%nat; cbn in H; congruence.
    + cbn in H. congruence.
    + cbn in H. discriminate.
Qed.

Lemma status_solution_witness :
  exists c,
    shownAnswer (terms (statusEffect solvedShape)) = Some c
    /\ forall x, balancedAt x (terms (statusEffect solvedShape)) <-> x = c.
Proof.
  exact (proj1 (status_solution solvedShape eq_refl) eq_refl).
Defined.

(** ** A level of one term *)

Lemma statusEffect_short (s : State) :
  List.length (terms s) <> 2%nat ->
  gameWon s = false -> gameWon (statusEffect s) = false.
Proof.
  intros Hn Hw. unfold statusEffect. rewrite Hw.
  destruct (List.length (terms s) =? 2)%nat eqn:E.
  - apply Nat.eqb_eq in E. contradiction.
  - exact Hw.
Qed.

Lemma find_mergeCandidate_single (term : Term) (newSide : Side)
    (hit : string -> bool) (ts : list Term) :
  (List.length ts <= 1)%nat -> In term ts ->
  find (mergeCandidate term newSide hit) ts = None.
Proof.
  destruct ts as [|t [|u l]]; cbn [List.length In find]; intros Hn Hin;
    try contradiction; try lia.
  destruct Hin as [-> | []].
  unfold mergeCandidate. rewrite String.eqb_refl. reflexivity.
Qed.

Lemma handle_single (e : Event) (m : Machine) :
  isNewGame e = false -> enabled e m ->
  (List.length (terms (mstate m)) <= 1)%nat ->
  gameWon (mstate m) = false ->
  termA (modal (mstate m)) = None ->
  List.length (terms (mstate (handle e m))) = List.length (terms (mstate m))
  /\ gameWon (mstate (handle e m)) = false
  /\ termA (modal (mstate (handle e m))) = None.
Proof.
  intros Hng Hen Hn Hw Ha.
  destruct e; try discriminate; unfold handle; cbn [mstate].
  - (* DragEnd *)
    cbn [enabled] in Hen. unfold handleDragEnd. rewrite Hw.
    rewrite (find_mergeCandidate_single _ _ _ _ Hn Hen).
    destruct (negb (Side_eqb newSide (side term)));
      cbn [setTerms terms gameWon modal]; rewrite ?length_map; auto.
  - auto.
  - (* MergeSubmit *)
    unfold handleMergeSubmit, mergeOutcome. rewrite Ha.
    cbn [Rand.ret mstate]. auto.
  - auto.
  - destruct (timers m); cbn [mstate]; auto.
  - unfold handleDivisionClick.
    destruct (canDivide (mstate m)) as [[d q]|]; auto.
  - auto.
  - auto.
  - unfold handleDivisionSubmit.
    match goal with
    | |- context [if ?c then _ else _] => destruct c
    end; cbn [closeDivisionModal setDivisionModal setTerms setScore terms
              gameWon modal]; rewrite ?length_map; auto.
  - auto.
Qed.

(** X18. A level of a single term cannot be won. When at most one term is
    on the screen, the game is not won and no merge is pending, every play
    that does not start a new game (drags of the card, the two dialogs and
    their submissions, the dismiss timer) keeps the number of terms and never
    reaches the won state: the player has to skip the level. *)
Theorem single_term_stuck (es : list Event) (m : Machine) :
  (List.length (terms (mstate m)) <= 1)%nat ->
  gameWon (mstate m) = false ->
  termA (modal (mstate m)) = None ->
  forallb (fun e => negb (isNewGame e)) es = true ->
  enabledAll es m ->
  List.length (terms (mstate (run es m))) = List.length (terms (mstate m))
  /\ gameWon (mstate (run es m)) = false
  /\ status (mstate (run es m)) <> won.
Proof.
  revert m. induction es as [|e es IH]; intros m Hn Hw Ha Hes Hen.
  - cbn [run fold_left]. repeat split; auto.
    unfold status. rewrite Hw.
    destruct (canDivide (mstate m)) as [[d q]|]; discriminate.
  - cbn [forallb] in Hes. apply andb_prop in Hes. destruct Hes as [He Hes].
    apply Bool.negb_true_iff in He.
    destruct Hen as [Hen1 Hen2].
    destruct (handle_single e m He Hen1 Hn Hw Ha) as (Hl & Hg & Hm).
    assert (Hl' : List.length (terms (mstate (dispatch e m)))
                  = List.length (terms (mstate m))).
    { unfold dispatch. cbn [mstate]. rewrite statusEffect_terms. exact Hl. }
    assert (Hg' : gameWon (mstate (dispatch e m)) = false).
    { unfold dispatch. cbn [mstate]. apply statusEffect_short; [lia|exact Hg]. }
    assert (Hm' : termA (modal (mstate (dispatch e m))) = None).
    { unfold dispatch. cbn [mstate].
      rewrite (proj1 (statusEffect_dialogs _)). exact Hm. }
    change (run (e :: es) m) with (run es (dispatch e m)).
    rewrite <- Hl'. apply IH; auto. lia.
Qed.

Lemma singleTermMachine_eq :
  mstate singleTermMachine
  = mkState [mkTerm "c" 2 true lhs] false 60 6
      closedModal closedDivisionModal None.
Proof. vm_compute. reflexivity. Qed.

Lemma single_term_stuck_witness :
  List.length (terms (mstate (run singleTermPlay singleTermMachine)))
  = List.length (terms (mstate singleTermMachine))
  /\ gameWon (mstate (run singleTermPlay singleTermMachine)) = false
  /\ status (mstate (run singleTermPlay singleTermMachine)) <> won.
Proof.
  assert (H1 : (List.length (terms (mstate singleTermMachine)) <= 1)%nat).
  { rewrite singleTermMachine_eq. cbn. lia. }
  assert (H2 : gameWon (mstate singleTermMachine) = false).
  { rewrite singleTermMachine_eq. reflexivity. }
  assert (H3 : termA (modal (mstate singleTermMachine)) = None).
  { rewrite singleTermMachine_eq. reflexivity. }
  assert (H4 : forallb (fun e => negb (isNewGame e)) singleTermPlay = true).
  { reflexivity. }
  assert (H5 : enabledAll singleTermPlay singleTermMachine).
  { vm_compute. repeat split. left. reflexivity. }
  exact (single_term_stuck singleTermPlay singleTermMachine H1 H2 H3 H4 H5).
Defined.
